(** * Sale posting and aggregation of the barber point-of-sale application

    A shallow embedding of the Electron main process (electron.js): the
    SQLite tables it creates, the prepared statements it runs, and the
    IPC handlers [pos/createSale], [dashboard/metrics] and
    [reports/sales].

    Modelling conventions.
    - INTEGER columns and JS integers are [Z]; REAL columns and the JS
      numbers that carry money are exact rationals [Qc] (rounding of
      binary64 is abstracted away; no statement below depends on it).
    - A [createdAt] text 'YYYY-MM-DD HH:MM:SS' (UTC) is the number of
      seconds since the epoch; [date] is its day number.  ISO text
      compares like that number.
    - A table with an INTEGER PRIMARY KEY that is only looked up by key is
      a [gmap] from the key; a table that is scanned is the list of its
      rows in rowid order.
    - A statement either completes or throws; a throw leaves the database
      as the failing statement found it (SQLite undoes the statement).
      better-sqlite3 opens databases with foreign keys enforced. *)

From Stdlib Require Import QArith Qcanon.
From stdpp Require Import gmap strings list fin_maps numbers sorting.

Local Open Scope Z_scope.
#[local] Set Warnings "-clear-no-such-hyp".

(** ** Rows and payloads (db/types.ts and the CREATE TABLE statements) *)

Inductive PaymentMethod := cash | card | mixed.

Module Product.
Record t := mk {
    name : string;
    barcode : option string;
    price : Qc;
    cost : Qc;
    quantity : Z;
    lowStockThreshold : Z;
    category : option string;
    image : option string
  }.
End Product.

Module User.
Record t := mk { username : string; password : string; role : string }.
End User.

Module Sale.
Record t := mk {
    id : Z;
    customerId : option Z;
    total : Qc;
    discount : Qc;
    tax : Qc;
    paymentMethod : PaymentMethod;
    paidAmount : Qc;
    changeAmount : Qc;
    userId : Z;
    createdAt : Z
  }.
End Sale.

Module SaleItem.
Record t := mk { id : Z; saleId : Z; productId : Z; quantity : Z; price : Qc }.
End SaleItem.

Module SaleItemPayload.
Record t := mk { id : Z; name : string; price : Qc; quantity : Z }.
End SaleItemPayload.

Module SalePayload.
Record t := mk {
    items : list SaleItemPayload.t;
    discount : Qc;
    taxRate : Qc;
    paymentMethod : PaymentMethod;
    paidAmount : Qc;
    customerId : option Z;
    userId : Z
  }.
End SalePayload.

Module SaleResult.
Record t := mk {
    saleId : Z;
    total : Qc;
    taxValue : Qc;
    discountValue : Qc;
    changeAmount : Qc
  }.
End SaleResult.

(** ** The database *)

Record Database := mkDatabase {
  users : gmap Z User.t;
  customers : gset Z;
  products : gmap Z Product.t;
  sales : list Sale.t;
  sale_items : list SaleItem.t;
  (* sqlite_sequence: the largest rowid handed out so far (AUTOINCREMENT) *)
  seq_sales : Z;
  seq_sale_items : Z
}.

Definition set_products (f : gmap Z Product.t → gmap Z Product.t) (db : Database) : Database :=
  mkDatabase (users db) (customers db) (f (products db)) (sales db) (sale_items db)
             (seq_sales db) (seq_sale_items db).

Definition push_sale (row : Sale.t) (db : Database) : Database :=
  mkDatabase (users db) (customers db) (products db) (sales db ++ [row]) (sale_items db)
             (Sale.id row) (seq_sale_items db).

Definition push_sale_item (row : SaleItem.t) (db : Database) : Database :=
  mkDatabase (users db) (customers db) (products db) (sales db) (sale_items db ++ [row])
             (seq_sales db) (SaleItem.id row).

(** ** Statements: complete or throw *)

Inductive SqliteError := SQLITE_CONSTRAINT_FOREIGNKEY.

Inductive completion (A : Type) :=
  | Return (a : A)
  | Throw (e : SqliteError).
Arguments Return {A} a.
Arguments Throw {A} e.

Definition DB (A : Type) : Type := Database → completion A * Database.

Definition ret {A} (a : A) : DB A := λ db, (Return a, db).

Definition bind {A B} (m : DB A) (k : A → DB B) : DB B :=
  λ db, match m db with
        | (Return a, db') => k a db'
        | (Throw e, db') => (Throw e, db')
        end.

Notation "x <- m ;; k" := (bind m (λ x, k))
  (at level 100, m at next level, right associativity).
Notation "m ;; k" := (bind m (λ _, k))
  (at level 100, right associativity).

(* db.transaction(fn)(args): BEGIN, run fn, COMMIT; when fn throws,
   ROLLBACK to the state at BEGIN and rethrow. *)
Definition transaction {A} (body : DB A) : DB A :=
  λ db, match body db with
        | (Return a, db') => (Return a, db')
        | (Throw e, _) => (Throw e, db)
        end.

(* Array.prototype.forEach with a callback that runs statements *)
Fixpoint forEach {A} (l : list A) (f : A → DB unit) : DB unit :=
  match l with
  | [] => ret tt
  | x :: l' => f x ;; forEach l' f
  end.

(* FOREIGN KEY (col) REFERENCES t(id): a NULL always passes *)
Definition fk_ok (col : option Z) (keys : gset Z) : bool :=
  match col with
  | None => true
  | Some k => bool_decide (k ∈ keys)
  end.

Definition sale_ids (db : Database) : gset Z := list_to_set (Sale.id <$> sales db).

(* INSERT INTO sales (customerId, total, discount, tax, paymentMethod,
   paidAmount, changeAmount, userId) VALUES (?, ...); createdAt takes its
   default CURRENT_TIMESTAMP.  Returns lastInsertRowid. *)
Definition insertSale_run (now : Z) (customerId : option Z) (total discount tax : Qc)
    (paymentMethod : PaymentMethod) (paidAmount changeAmount : Qc) (userId : Z) : DB Z :=
  λ db,
    if fk_ok customerId (customers db) && fk_ok (Some userId) (dom (users db)) then
      let rowid := seq_sales db + 1 in
      (Return rowid,
       push_sale (Sale.mk rowid customerId total discount tax paymentMethod
                          paidAmount changeAmount userId now) db)
    else (Throw SQLITE_CONSTRAINT_FOREIGNKEY, db).

(* INSERT INTO sale_items (saleId, productId, quantity, price) VALUES (?, ?, ?, ?) *)
Definition insertItem_run (saleId productId quantity : Z) (price : Qc) : DB unit :=
  λ db,
    if fk_ok (Some saleId) (sale_ids db) && fk_ok (Some productId) (dom (products db)) then
      let rowid := seq_sale_items db + 1 in
      (Return tt, push_sale_item (SaleItem.mk rowid saleId productId quantity price) db)
    else (Throw SQLITE_CONSTRAINT_FOREIGNKEY, db).

Definition decrement (q : Z) (p : Product.t) : Product.t :=
  Product.mk (Product.name p) (Product.barcode p) (Product.price p) (Product.cost p)
             (Product.quantity p - q) (Product.lowStockThreshold p)
             (Product.category p) (Product.image p).

(* UPDATE products SET quantity = quantity - ? WHERE id = ? *)
Definition updateStock_run (quantity productId : Z) : DB unit :=
  λ db, (Return tt, set_products (alter (decrement quantity) productId) db).

(** ** pos/createSale *)

(* JS [x || 0] on a number and [x || null] on an optional id *)
Definition or_zero (x : Qc) : Qc := if decide (x = 0%Qc) then 0%Qc else x.
Definition or_null (x : option Z) : option Z :=
  match x with
  | Some 0 => None
  | _ => x
  end.

(* items.reduce((acc, item) => acc + item.price * item.quantity, 0) *)
Definition cart_subtotal (items : list SaleItemPayload.t) : Qc :=
  fold_left (λ acc item,
      (acc + SaleItemPayload.price item * Qc_of_Z (SaleItemPayload.quantity item))%Qc)
    items 0%Qc.

Definition createSale (now : Z) (payload : SalePayload.t) : DB SaleResult.t :=
  let items := SalePayload.items payload in
  let subtotal := cart_subtotal items in
  let discountValue := or_zero (SalePayload.discount payload) in
  let taxValue := ((subtotal - discountValue) * SalePayload.taxRate payload)%Qc in
  let total := (subtotal - discountValue + taxValue)%Qc in
  let changeAmount := (SalePayload.paidAmount payload - total)%Qc in
  saleId <- insertSale_run now (or_null (SalePayload.customerId payload)) total
              discountValue taxValue (SalePayload.paymentMethod payload)
              (SalePayload.paidAmount payload) changeAmount (SalePayload.userId payload) ;;
  transaction
    (forEach items (λ item,
       insertItem_run saleId (SaleItemPayload.id item) (SaleItemPayload.quantity item)
                      (SaleItemPayload.price item) ;;
       updateStock_run (SaleItemPayload.quantity item) (SaleItemPayload.id item))) ;;
  ret (SaleResult.mk saleId total taxValue discountValue changeAmount).

(** ** Result sets

    SQL leaves the order of rows with equal ORDER BY keys open, so a query
    with ORDER BY is modelled twice: by the relation between the database
    and every answer the statement allows, and by an evaluator that
    returns one of them. *)

Definition order_by {A} (R : relation A) (rows result : list A) : Prop :=
  rows ≡ₚ result ∧ Sorted R result.

(* GROUP BY key with an aggregate SUM: one entry per distinct key *)
Definition group_by `{Countable K} {V} (add : V → V → V) (rows : list (K * V)) : gmap K V :=
  foldr (λ kv m, <[kv.1 := match m !! kv.1 with
                           | Some v => add kv.2 v
                           | None => kv.2
                           end]> m) ∅ rows.

(* what the entry of [k] sums: the values of the rows of the group *)
Definition group_values {K V} `{EqDecision K} (k : K) (rows : list (K * V)) : list V :=
  (filter (λ kv, kv.1 = k) rows).*2.

Definition sum_Z (l : list Z) : Z := foldr Z.add 0 l.
Definition sum_Qc (l : list Qc) : Qc := foldr Qcplus 0%Qc l.

(** ** dashboard/metrics: topProducts *)

(* FROM sale_items si JOIN products p ON p.id = si.productId, projected on
   (p.name, si.quantity) *)
Definition sold_lines (db : Database) : list (string * Z) :=
  omap (λ si, (λ p, (Product.name p, SaleItem.quantity si))
                <$> products db !! SaleItem.productId si)
       (sale_items db).

(* SELECT p.name, SUM(si.quantity) as qty ... GROUP BY p.name *)
Definition product_totals (db : Database) : gmap string Z :=
  group_by Z.add (sold_lines db).

(* ORDER BY qty DESC *)
Definition qty_desc (a b : string * Z) : Prop := b.2 ≤ a.2.
Global Instance qty_desc_dec : RelDecision qty_desc.
Proof. intros a b. unfold qty_desc. apply _. Defined.

(* ... ORDER BY qty DESC LIMIT 5: the answers the statement allows *)
Definition topProducts_rows (db : Database) (result : list (string * Z)) : Prop :=
  ∃ l, order_by qty_desc (map_to_list (product_totals db)) l ∧ result = take 5 l.

Definition topProducts (db : Database) : list (string * Z) :=
  take 5 (merge_sort qty_desc (map_to_list (product_totals db))).

(** ** dashboard/metrics: salesTrend *)

(* date(t) and strftime('%Y-%m-%d', t): the day of a time stamp *)
Definition date (t : Z) : Z := t `div` 86400.

(* [createdAt >= D] compares the text 'YYYY-MM-DD HH:MM:SS' with the bare
   date text D = 'YYYY-MM-DD': the date parts are compared first, and a
   stamp taken on day D itself is the longer text, hence the greater. *)
Definition stamp_ge_date (createdAt day : Z) : bool := bool_decide (day ≤ date createdAt).

(* FROM sales WHERE createdAt >= date('now', '-14 day'), projected on
   (strftime('%Y-%m-%d', createdAt), total) *)
Definition trend_lines (now : Z) (db : Database) : list (Z * Qc) :=
  (λ s, (date (Sale.createdAt s), Sale.total s))
    <$> filter (λ s, stamp_ge_date (Sale.createdAt s) (date now - 14) = true) (sales db).

Definition day_asc (a b : Z * Qc) : Prop := a.1 ≤ b.1.
Global Instance day_asc_dec : RelDecision day_asc.
Proof. intros a b. unfold day_asc. apply _. Defined.

(* SELECT day, SUM(total) as total ... GROUP BY day ORDER BY day; the days
   of the groups are distinct, so the order is determined *)
Definition salesTrend (now : Z) (db : Database) : list (Z * Qc) :=
  merge_sort day_asc (map_to_list (group_by Qcplus (trend_lines now db))).

(** ** reports/sales *)

Module ReportPayload.
Record t := mk { from : Z; to : Z; userId : option Z }.
End ReportPayload.

Module ReportRow.
Record t := mk { sale : Sale.t; username : option string }.
End ReportRow.

(* JS truthiness of an optional number: [if (userId)] *)
Definition truthy (x : option Z) : bool :=
  match x with
  | Some v => bool_decide (v ≠ 0)
  | None => false
  end.

(* WHERE date(createdAt) BETWEEN date(?) AND date(?) [AND s.userId = ?] *)
Definition report_where (payload : ReportPayload.t) (s : Sale.t) : bool :=
  bool_decide (ReportPayload.from payload ≤ date (Sale.createdAt s))
  && bool_decide (date (Sale.createdAt s) ≤ ReportPayload.to payload)
  && (if truthy (ReportPayload.userId payload)
      then bool_decide (Some (Sale.userId s) = ReportPayload.userId payload)
      else true).

(* SELECT s.*, u.username FROM sales s LEFT JOIN users u ON u.id = s.userId *)
Definition with_username (db : Database) (s : Sale.t) : ReportRow.t :=
  ReportRow.mk s (User.username <$> users db !! Sale.userId s).

(* ORDER BY datetime(createdAt) DESC *)
Definition createdAt_desc (a b : ReportRow.t) : Prop :=
  Sale.createdAt (ReportRow.sale b) ≤ Sale.createdAt (ReportRow.sale a).
Global Instance createdAt_desc_dec : RelDecision createdAt_desc.
Proof. intros a b. unfold createdAt_desc. apply _. Defined.

Definition report_lines (payload : ReportPayload.t) (db : Database) : list ReportRow.t :=
  with_username db <$> filter (λ s, report_where payload s = true) (sales db).

Definition salesReport_rows (payload : ReportPayload.t) (db : Database)
    (result : list ReportRow.t) : Prop :=
  order_by createdAt_desc (report_lines payload db) result.

Definition salesReport (payload : ReportPayload.t) (db : Database) : list ReportRow.t :=
  merge_sort createdAt_desc (report_lines payload db).

(** ** Reading a run of createSale *)

Definition header_ok (payload : SalePayload.t) (db : Database) : bool :=
  fk_ok (or_null (SalePayload.customerId payload)) (customers db)
  && fk_ok (Some (SalePayload.userId payload)) (dom (users db)).

Definition lines_ok (items : list SaleItemPayload.t) (db : Database) : bool :=
  forallb (λ item, bool_decide (SaleItemPayload.id item ∈ dom (products db))) items.

(* the values computed at the head of the handler *)
Definition taxable (payload : SalePayload.t) : Qc :=
  (cart_subtotal (SalePayload.items payload) - or_zero (SalePayload.discount payload))%Qc.

Definition sale_result (payload : SalePayload.t) (db : Database) : SaleResult.t :=
  let taxValue := (taxable payload * SalePayload.taxRate payload)%Qc in
  let total := (taxable payload + taxValue)%Qc in
  SaleResult.mk (seq_sales db + 1) total taxValue (or_zero (SalePayload.discount payload))
                (SalePayload.paidAmount payload - total)%Qc.

Definition sale_row (now : Z) (payload : SalePayload.t) (db : Database) : Sale.t :=
  let r := sale_result payload db in
  Sale.mk (SaleResult.saleId r) (or_null (SalePayload.customerId payload))
          (SaleResult.total r) (SaleResult.discountValue r) (SaleResult.taxValue r)
          (SalePayload.paymentMethod payload) (SalePayload.paidAmount payload)
          (SaleResult.changeAmount r) (SalePayload.userId payload) now.

(* the effect of one turn of the loop, when its insert passes *)
Definition post_line (saleId : Z) (db : Database) (item : SaleItemPayload.t) : Database :=
  set_products
    (alter (decrement (SaleItemPayload.quantity item)) (SaleItemPayload.id item))
    (push_sale_item
       (SaleItem.mk (seq_sale_items db + 1) saleId (SaleItemPayload.id item)
                    (SaleItemPayload.quantity item) (SaleItemPayload.price item)) db).

Definition post_lines (saleId : Z) (items : list SaleItemPayload.t) (db : Database) : Database :=
  fold_left (post_line saleId) items db.

(* the quantity a cart posts for one product *)
Definition posted (items : list SaleItemPayload.t) (pid : Z) : Z :=
  sum_Z (SaleItemPayload.quantity <$> filter (λ item, SaleItemPayload.id item = pid) items).

(* the loop body of the transaction *)
Definition line_body (saleId : Z) (item : SaleItemPayload.t) : DB unit :=
  insertItem_run saleId (SaleItemPayload.id item) (SaleItemPayload.quantity item)
                 (SaleItemPayload.price item) ;;
  updateStock_run (SaleItemPayload.quantity item) (SaleItemPayload.id item).

(* the rows the loop adds to sale_items, given the last rowid handed out *)
Fixpoint item_rows (saleId seq : Z) (items : list SaleItemPayload.t) : list SaleItem.t :=
  match items with
  | [] => []
  | item :: rest =>
      SaleItem.mk (seq + 1) saleId (SaleItemPayload.id item)
                  (SaleItemPayload.quantity item) (SaleItemPayload.price item)
      :: item_rows saleId (seq + 1) rest
  end.

Definition line_amount (item : SaleItemPayload.t) : Qc :=
  (SaleItemPayload.price item * Qc_of_Z (SaleItemPayload.quantity item))%Qc.

Definition with_paidAmount (paid : Qc) (payload : SalePayload.t) : SalePayload.t :=
  SalePayload.mk (SalePayload.items payload) (SalePayload.discount payload)
                 (SalePayload.taxRate payload) (SalePayload.paymentMethod payload)
                 paid (SalePayload.customerId payload) (SalePayload.userId payload).

(** ** The words of the specification, for comparison *)

Definition Qcmax (x y : Qc) : Qc := if decide (x ≤ y)%Qc then y else x.

(* tax = max(0, subtotal − discount) × taxRate *)
Definition spec_tax (payload : SalePayload.t) : Qc :=
  (Qcmax 0 (cart_subtotal (SalePayload.items payload) - SalePayload.discount payload)
   * SalePayload.taxRate payload)%Qc.

(* a cart the specification wants rejected before any write *)
Definition invalid_cart (payload : SalePayload.t) (db : Database) : Prop :=
  SalePayload.items payload = []
  ∨ (∃ item, item ∈ SalePayload.items payload ∧ SaleItemPayload.quantity item ≤ 0)
  ∨ (∃ item, item ∈ SalePayload.items payload
             ∧ SaleItemPayload.id item ∉ dom (products db)).

(** ** Calls in flight together

    The handlers registered with [ipcMain.handle] are synchronous
    functions and better-sqlite3 is synchronous: the event loop of the
    main process runs a call to its end before it starts the next.  Two
    calls that are in flight together are therefore run one after the
    other, in either order. *)

Definition post_all (calls : list (Z * SalePayload.t)) : DB unit :=
  forEach calls (λ call, createSale call.1 call.2 ;; ret tt).

Definition serializations {A} (a b : A) : list (list A) := [[a; b]; [b; a]].

(** ** Sample data *)

Definition sample_product (n : string) (p c : Z) (q t : Z) : Product.t :=
  Product.mk n None (Qc_of_Z p) (Qc_of_Z c) q t None None.

(* a small store before any sale: the admin user, one customer and three
   products without barcodes (fewer rows than initializeDatabase writes on
   first start) *)
Definition seed_db : Database :=
  mkDatabase {[ 1 := User.mk "admin" "hash" "admin" ]} {[ 1 ]}
    (list_to_map [(1, sample_product "haircut" 35 10 20 5);
                  (2, sample_product "shave" 25 8 15 5);
                  (3, sample_product "beard kit" 60 30 10 3)])
    [] [] 0 0.

Definition cart (items : list SaleItemPayload.t) (discount paid : Z) : SalePayload.t :=
  SalePayload.mk items (Qc_of_Z discount) (Q2Qc (15 # 100)) cash (Qc_of_Z paid) None 1.

Definition haircut (q : Z) := SaleItemPayload.mk 1 "haircut" (Qc_of_Z 35) q.
Definition beard_kit (q : Z) := SaleItemPayload.mk 3 "beard kit" (Qc_of_Z 60) q.
Definition ghost (q : Z) := SaleItemPayload.mk 99 "ghost" (Qc_of_Z 10) q.

(** ** Reading an aggregate *)

(* the ranking in the words of the specification: quantity descending,
   equal quantities by name ascending *)
Definition qty_desc_name_asc (a b : string * Z) : Prop :=
  b.2 < a.2 ∨ (a.2 = b.2 ∧ String.leb a.1 b.1 = true).

(* the quantity sold of one product row *)
Definition sold (db : Database) (pid : Z) : Z :=
  sum_Z (SaleItem.quantity
           <$> filter (λ si, SaleItem.productId si = pid) (sale_items db)).

(* the quantity sold of the product rows named [n], those in [except] aside *)
Definition sold_as (db : Database) (n : string) (except : list Z) : Z :=
  sum_Z (SaleItem.quantity
           <$> filter (λ si, Product.name <$> products db !! SaleItem.productId si = Some n
                             ∧ SaleItem.productId si ∉ except)
                      (sale_items db)).

(* the sales stamped on one day *)
Definition sales_on (db : Database) (day : Z) : list Sale.t :=
  filter (λ s, date (Sale.createdAt s) = day) (sales db).

(* the condition of reports/sales in the words of the specification *)
Definition spec_report_where (payload : ReportPayload.t) (s : Sale.t) : Prop :=
  ReportPayload.from payload ≤ date (Sale.createdAt s) ≤ ReportPayload.to payload
  ∧ ∀ u, ReportPayload.userId payload = Some u → Sale.userId s = u.

(** ** More sample data *)

Definition shelf (names : list string) : gmap Z Product.t :=
  list_to_map (imap (λ i n, (Z.of_nat i + 1, sample_product n 10 5 50 5)) names).

Definition line (pid : Z) (n : string) (q : Z) := SaleItemPayload.mk pid n (Qc_of_Z 10) q.

Definition shelf_db (names : list string) : Database :=
  mkDatabase {[ 1 := User.mk "admin" "hash" "admin" ]} {[ 1 ]} (shelf names) [] [] 0 0.

(* A sold 5 times, C and B 7 times each *)
Definition letters_db : Database :=
  (createSale 1000 (cart [line 1 "A" 5; line 3 "C" 7; line 2 "B" 7] 0 0)
              (shelf_db ["A"; "B"; "C"])).2.

(* two product rows named wax, sold 2 and 3 times *)
Definition wax_db : Database :=
  (createSale 1000 (cart [line 1 "wax" 2; line 2 "wax" 3; line 3 "cream" 1] 0 0)
              (shelf_db ["wax"; "wax"; "cream"])).2.

(* day 20, one hour in *)
Definition day20 : Z := 20 * 86400 + 3600.

(* one sale on day 6 *)
Definition day6_db : Database :=
  (createSale (6 * 86400 + 100) (cart [haircut 1; beard_kit 1] 5 120) seed_db).2.

(* the admin posts one sale on day 0 and one on day 1 *)
Definition two_days_db : Database :=
  (post_all [(1000, cart [haircut 1] 0 50); (90000, cart [beard_kit 1] 0 100)] seed_db).2.

(** ** Integrity of the tables *)

(* the FOREIGN KEY clauses of sales and of sale_items, read as a property
   of the rows that are in the tables *)
Definition sale_refs_ok (db : Database) (s : Sale.t) : Prop :=
  fk_ok (Sale.customerId s) (customers db) = true ∧ Sale.userId s ∈ dom (users db).

Definition item_refs_ok (db : Database) (si : SaleItem.t) : Prop :=
  SaleItem.saleId si ∈ sale_ids db ∧ SaleItem.productId si ∈ dom (products db).

Definition foreign_keys_hold (db : Database) : Prop :=
  Forall (sale_refs_ok db) (sales db) ∧ Forall (item_refs_ok db) (sale_items db).

(* the INTEGER PRIMARY KEY AUTOINCREMENT clauses of sales and sale_items:
   rowids are distinct and none exceeds what sqlite_sequence records *)
Definition rowids_ok (db : Database) : Prop :=
  NoDup (Sale.id <$> sales db)
  ∧ Forall (λ s, Sale.id s ≤ seq_sales db) (sales db)
  ∧ NoDup (SaleItem.id <$> sale_items db)
  ∧ Forall (λ si, SaleItem.id si ≤ seq_sale_items db) (sale_items db).

(* the columns of a product row that a sale never writes *)
Definition same_but_quantity (p p' : Product.t) : Prop :=
  Product.name p' = Product.name p
  ∧ Product.barcode p' = Product.barcode p
  ∧ Product.price p' = Product.price p
  ∧ Product.cost p' = Product.cost p
  ∧ Product.lowStockThreshold p' = Product.lowStockThreshold p
  ∧ Product.category p' = Product.category p
  ∧ Product.image p' = Product.image p.

(* what a line of the cart and a row of sale_items say about the sale *)
Definition line_columns (item : SaleItemPayload.t) : Z * Z * Qc :=
  (SaleItemPayload.id item, SaleItemPayload.quantity item, SaleItemPayload.price item).

Definition item_columns (si : SaleItem.t) : Z * Z * Qc :=
  (SaleItem.productId si, SaleItem.quantity si, SaleItem.price si).

(* SELECT * FROM sale_items WHERE saleId = ? *)
Definition items_of_sale (db : Database) (saleId : Z) : list SaleItem.t :=
  filter (λ si, SaleItem.saleId si = saleId) (sale_items db).

(** ** dashboard/metrics: today and month *)

Module Totals.
Record t := mk { total : Qc; orders : Z }.
End Totals.

(* SELECT IFNULL(SUM(total), 0) as total, COUNT( * ) as orders FROM sales
   WHERE date(createdAt) = date('now') *)
Definition today (now : Z) (db : Database) : Totals.t :=
  let rows := filter (λ s, date (Sale.createdAt s) = date now) (sales db) in
  Totals.mk (sum_Qc (Sale.total <$> rows)) (Z.of_nat (length rows)).

(* ... WHERE strftime('%Y-%m', createdAt) = strftime('%Y-%m', 'now'); the
   calendar, which maps a day to its year and month, is SQLite's and is
   taken as the parameter [year_month] *)
Definition month (year_month : Z → Z) (now : Z) (db : Database) : Totals.t :=
  let rows := filter (λ s, year_month (date (Sale.createdAt s)) = year_month (date now))
                     (sales db) in
  Totals.mk (sum_Qc (Sale.total <$> rows)) (Z.of_nat (length rows)).

(** ** ReportsPage: the totals under the date range *)

Module ReportTotals.
Record t := mk { total : Qc; tax : Qc; count : Z }.
End ReportTotals.

(* rows.reduce((acc, row) => { acc.total += row.total; acc.tax += row.tax;
   acc.count += 1; return acc; }, { total: 0, tax: 0, count: 0 }) *)
Definition totals (rows : list ReportRow.t) : ReportTotals.t :=
  fold_left (λ acc row,
      ReportTotals.mk (ReportTotals.total acc + Sale.total (ReportRow.sale row))%Qc
                      (ReportTotals.tax acc + Sale.tax (ReportRow.sale row))%Qc
                      (ReportTotals.count acc + 1))
    rows (ReportTotals.mk 0%Qc 0%Qc 0).

(* calls handled one after the other, each on what the one before left,
   whatever way each of them ends *)
Definition after_posts (calls : list (Z * SalePayload.t)) (db : Database) : Database :=
  fold_left (λ db call, (createSale call.1 call.2 db).2) calls db.

(** ** pos/searchProducts *)

(* a row of SELECT * FROM products as the pages receive it (db/types.ts
   Product): the id and the other columns *)
Definition ProductRow : Type := Z * Product.t.

(* ORDER BY name: TEXT under the default BINARY collation, byte by byte *)
Definition name_asc (a b : ProductRow) : Prop :=
  String.leb (Product.name a.2) (Product.name b.2) = true.
Global Instance name_asc_dec : RelDecision name_asc.
Proof. intros a b. unfold name_asc. apply _. Defined.

(* JS truthiness of an optional string: [if (!query)] *)
Definition truthy_string (x : option string) : bool :=
  match x with
  | Some s => bool_decide (s ≠ "")
  | None => false
  end.

(* WHERE name LIKE ? OR barcode LIKE ?, both bound to `%${query}%`.  LIKE
   is SQLite's and is taken as the parameter [like pattern text]; a NULL
   barcode matches nothing. *)
Definition search_where (like : string → string → bool) (query : string)
    (row : ProductRow) : bool :=
  like ("%" +:+ query +:+ "%") (Product.name row.2)
  || match Product.barcode row.2 with
     | Some b => like ("%" +:+ query +:+ "%") b
     | None => false
     end.

Definition search_lines (like : string → string → bool) (query : option string)
    (db : Database) : list ProductRow :=
  if truthy_string query
  then filter (λ row, search_where like (default "" query) row = true)
              (map_to_list (products db))
  else map_to_list (products db).

(* ... ORDER BY name LIMIT 25: the answers the statement allows *)
Definition searchProducts_rows (like : string → string → bool) (query : option string)
    (db : Database) (result : list ProductRow) : Prop :=
  ∃ l, order_by name_asc (search_lines like query db) l ∧ result = take 25 l.

Definition searchProducts (like : string → string → bool) (query : option string)
    (db : Database) : list ProductRow :=
  take 25 (merge_sort name_asc (search_lines like query db)).

(** ** POSPage: the cart and the checkout *)

(* contexts/AuthContext.tsx User *)
Module AuthUser.
Record t := mk { id : Z; username : string; role : string }.
End AuthUser.

(* contexts/SettingsContext.tsx Settings *)
Module Settings.
Record t := mk {
  language : string;
  currency : string;
  taxRate : Qc;
  storeName : string;
  logoPath : option string;
  receiptType : string
}.
End Settings.

(* the state of the page: useState of products, cart, discount,
   paymentMethod and paidAmount (query only narrows what is shown) *)
Module POSPage.
Record t := mk {
  products : list ProductRow;
  cart : list SaleItemPayload.t;
  discount : Qc;
  paymentMethod : PaymentMethod;
  paidAmount : Qc
}.
End POSPage.

Definition with_quantity (q : Z) (item : SaleItemPayload.t) : SaleItemPayload.t :=
  SaleItemPayload.mk (SaleItemPayload.id item) (SaleItemPayload.name item)
                     (SaleItemPayload.price item) q.

(* addToCart(product): setCart(prev => prev.find(item => item.id ===
   product.id) ? prev.map(... quantity + 1 ...) : [...prev, { ..., quantity: 1 }]) *)
Definition addToCart (product : ProductRow) (prev : list SaleItemPayload.t)
    : list SaleItemPayload.t :=
  match list_find (λ item, SaleItemPayload.id item = product.1) prev with
  | Some _ =>
      (λ item, if decide (SaleItemPayload.id item = product.1)
               then with_quantity (SaleItemPayload.quantity item + 1) item
               else item) <$> prev
  | None =>
      prev ++ [SaleItemPayload.mk product.1 (Product.name product.2)
                                  (Product.price product.2) 1]
  end.

(* removeFromCart(id): prev.filter(item => item.id !== id) *)
Definition removeFromCart (id : Z) (prev : list SaleItemPayload.t) : list SaleItemPayload.t :=
  filter (λ item, SaleItemPayload.id item ≠ id) prev.

(* updateQuantity(id, quantity): prev.map(item => item.id === id ?
   { ...item, quantity } : item) *)
Definition updateQuantity (id quantity : Z) (prev : list SaleItemPayload.t)
    : list SaleItemPayload.t :=
  (λ item, if decide (SaleItemPayload.id item = id) then with_quantity quantity item else item)
    <$> prev.

Definition clearCart : list SaleItemPayload.t := [].

(* POSCart: the minus and the plus button of a line *)
Definition minus_click (item : SaleItemPayload.t) : list SaleItemPayload.t → list SaleItemPayload.t :=
  updateQuantity (SaleItemPayload.id item) (Z.max 1 (SaleItemPayload.quantity item - 1)).

Definition plus_click (item : SaleItemPayload.t) : list SaleItemPayload.t → list SaleItemPayload.t :=
  updateQuantity (SaleItemPayload.id item) (SaleItemPayload.quantity item + 1).

(* settings?.taxRate || 0 *)
Definition settings_taxRate (settings : option Settings.t) : Qc :=
  match settings with
  | Some s => or_zero (Settings.taxRate s)
  | None => 0%Qc
  end.

(* the figures shown under the cart: subtotal, tax, total, changeAmount *)
Definition shown_subtotal (page : POSPage.t) : Qc := cart_subtotal (POSPage.cart page).

Definition shown_tax (settings : option Settings.t) (page : POSPage.t) : Qc :=
  ((shown_subtotal page - POSPage.discount page) * settings_taxRate settings)%Qc.

Definition shown_total (settings : option Settings.t) (page : POSPage.t) : Qc :=
  (shown_subtotal page - POSPage.discount page + shown_tax settings page)%Qc.

Definition shown_changeAmount (settings : option Settings.t) (page : POSPage.t) : Qc :=
  (POSPage.paidAmount page - shown_total settings page)%Qc.

(* handleCheckout, up to the call: nothing is sent for an empty cart or
   without a user; otherwise the payload is built from the state *)
Definition checkout_payload (user : option AuthUser.t) (settings : option Settings.t)
    (page : POSPage.t) : option SalePayload.t :=
  match POSPage.cart page, user with
  | [], _ => None
  | _, None => None
  | cart, Some u =>
      Some (SalePayload.mk cart (POSPage.discount page) (settings_taxRate settings)
                           (POSPage.paymentMethod page) (POSPage.paidAmount page)
                           None (AuthUser.id u))
  end.

(* the page after a call that returned: the products it loads again,
   clearCart(), setDiscount(0), setPaidAmount(0) *)
Definition after_checkout (reloaded : list ProductRow) (page : POSPage.t) : POSPage.t :=
  POSPage.mk reloaded clearCart 0%Qc (POSPage.paymentMethod page) 0%Qc.

Definition with_cart (cart : list SaleItemPayload.t) (page : POSPage.t) : POSPage.t :=
  POSPage.mk (POSPage.products page) cart (POSPage.discount page)
             (POSPage.paymentMethod page) (POSPage.paidAmount page).

(* what the user can do on the page and what it does to the page and to
   the database; the clock of a post is the time of the click *)
Inductive pos_step (like : string → string → bool)
    (user : option AuthUser.t) (settings : option Settings.t)
    : POSPage.t * Database → POSPage.t * Database → Prop :=
  | click_product page db product :
      product ∈ POSPage.products page →
      pos_step like user settings (page, db)
               (with_cart (addToCart product (POSPage.cart page)) page, db)
  | click_minus page db item :
      item ∈ POSPage.cart page →
      pos_step like user settings (page, db)
               (with_cart (minus_click item (POSPage.cart page)) page, db)
  | click_plus page db item :
      item ∈ POSPage.cart page →
      pos_step like user settings (page, db)
               (with_cart (plus_click item (POSPage.cart page)) page, db)
  | click_remove page db item :
      item ∈ POSPage.cart page →
      pos_step like user settings (page, db)
               (with_cart (removeFromCart (SaleItemPayload.id item) (POSPage.cart page)) page, db)
  | click_clear page db :
      pos_step like user settings (page, db) (with_cart clearCart page, db)
  | type_discount page db discount :
      pos_step like user settings (page, db)
               (POSPage.mk (POSPage.products page) (POSPage.cart page) discount
                           (POSPage.paymentMethod page) (POSPage.paidAmount page), db)
  | choose_paymentMethod page db method :
      pos_step like user settings (page, db)
               (POSPage.mk (POSPage.products page) (POSPage.cart page) (POSPage.discount page)
                           method (POSPage.paidAmount page), db)
  | type_paidAmount page db paid :
      pos_step like user settings (page, db)
               (POSPage.mk (POSPage.products page) (POSPage.cart page) (POSPage.discount page)
                           (POSPage.paymentMethod page) paid, db)
  | checkout_refused page db :
      checkout_payload user settings page = None →
      pos_step like user settings (page, db) (page, db)
  | checkout_saved page db now payload r db' reloaded :
      checkout_payload user settings page = Some payload →
      createSale now payload db = (Return r, db') →
      searchProducts_rows like (Some "") db' reloaded →
      pos_step like user settings (page, db) (after_checkout reloaded page, db')
  | checkout_failed page db now payload e db' :
      checkout_payload user settings page = Some payload →
      createSale now payload db = (Throw e, db') →
      pos_step like user settings (page, db) (page, db').

(* the page as it is mounted: the products of searchProducts(""), an
   empty cart, no discount, cash, nothing paid *)
Definition pos_mounted (like : string → string → bool) (db : Database) (page : POSPage.t) : Prop :=
  searchProducts_rows like (Some "") db (POSPage.products page)
  ∧ POSPage.cart page = []
  ∧ POSPage.discount page = 0%Qc
  ∧ POSPage.paymentMethod page = cash
  ∧ POSPage.paidAmount page = 0%Qc.

(* what holds of the page and the database as long as the page is up *)
Definition cart_line_ok (page : POSPage.t) (item : SaleItemPayload.t) : Prop :=
  1 ≤ SaleItemPayload.quantity item
  ∧ ∃ product, product ∈ POSPage.products page
               ∧ product.1 = SaleItemPayload.id item
               ∧ Product.name product.2 = SaleItemPayload.name item
               ∧ Product.price product.2 = SaleItemPayload.price item.

Definition pos_invariant (page : POSPage.t) (db : Database) : Prop :=
  (length (POSPage.products page) ≤ 25)%nat
  ∧ Forall (λ product, product.1 ∈ dom (products db)) (POSPage.products page)
  ∧ NoDup (SaleItemPayload.id <$> POSPage.cart page)
  ∧ Forall (cart_line_ok page) (POSPage.cart page).

(* the page on the seeded database, as mounted and after two clicks *)
Definition mounted_page : POSPage.t :=
  POSPage.mk (searchProducts (λ _ _, true) (Some "") seed_db) [] 0%Qc cash 0%Qc.

Definition once_clicked_page : POSPage.t :=
  with_cart (addToCart (1, sample_product "haircut" 35 10 20 5) (POSPage.cart mounted_page))
            mounted_page.

Definition clicked_page : POSPage.t :=
  with_cart (addToCart (1, sample_product "haircut" 35 10 20 5)
                       (POSPage.cart once_clicked_page))
            once_clicked_page.

Definition cashier : AuthUser.t := AuthUser.mk 1 "admin" "admin".

(** ** products/save, products/delete, users/save, users/delete, auth/login

    The tables of these handlers hand out rowids of their own: the
    database is extended with the sqlite_sequence entries of products and
    users.  UNIQUE joins FOREIGN KEY as a way for a statement to fail. *)

Record Shop := mkShop {
  tables : Database;
  seq_products : Z;
  seq_users : Z
}.

Inductive Failure :=
  | Sqlite (e : SqliteError)
  | SQLITE_CONSTRAINT_UNIQUE.

Inductive reply (A : Type) :=
  | Replied (a : A)
  | Failed (e : Failure).
Arguments Replied {A} a.
Arguments Failed {A} e.

Definition with_tables (db : Database) (shop : Shop) : Shop :=
  mkShop db (seq_products shop) (seq_users shop).

Definition with_products (f : gmap Z Product.t → gmap Z Product.t) (shop : Shop) : Shop :=
  with_tables (set_products f (tables shop)) shop.

Definition with_users (f : gmap Z User.t → gmap Z User.t) (shop : Shop) : Shop :=
  with_tables (mkDatabase (f (users (tables shop))) (customers (tables shop))
                          (products (tables shop)) (sales (tables shop))
                          (sale_items (tables shop)) (seq_sales (tables shop))
                          (seq_sale_items (tables shop))) shop.

(* JS truthiness of an optional id: [if (product.id)], [if (user.id)] *)
Definition truthy_id (x : option Z) : option Z :=
  match x with
  | Some 0 => None
  | _ => x
  end.

(* barcode TEXT UNIQUE: another row, one other than [self], holds the
   same barcode; NULL collides with nothing *)
Definition barcode_taken (barcode : option string) (self : option Z)
    (rows : gmap Z Product.t) : Prop :=
  match barcode with
  | Some b => map_Exists (λ id p, Product.barcode p = Some b ∧ Some id ≠ self) rows
  | None => False
  end.
Global Instance barcode_taken_dec barcode self rows : Decision (barcode_taken barcode self rows).
Proof. unfold barcode_taken. destruct barcode; apply _. Defined.

Module ProductPayload.
Record t := mk { id : option Z; columns : Product.t }.
End ProductPayload.

(* products/save: UPDATE products SET ... WHERE id = ? when the payload
   has an id, INSERT INTO products (...) otherwise; returns { id }.  The
   payload is taken with every column bound: name, price, cost and the
   two quantities present, barcode, category and image a string or null *)
Definition products_save (product : ProductPayload.t) (shop : Shop) : reply Z * Shop :=
  match truthy_id (ProductPayload.id product) with
  | Some id =>
      if decide (is_Some (products (tables shop) !! id))
      then if decide (barcode_taken (Product.barcode (ProductPayload.columns product))
                                    (Some id) (products (tables shop)))
           then (Failed SQLITE_CONSTRAINT_UNIQUE, shop)
           else (Replied id, with_products (insert id (ProductPayload.columns product)) shop)
      else (Replied id, shop)
  | None =>
      if decide (barcode_taken (Product.barcode (ProductPayload.columns product))
                               None (products (tables shop)))
      then (Failed SQLITE_CONSTRAINT_UNIQUE, shop)
      else let rowid := seq_products shop + 1 in
           (Replied rowid,
            mkShop (set_products (insert rowid (ProductPayload.columns product)) (tables shop))
                   rowid (seq_users shop))
  end.

(* a sale item references the product: FOREIGN KEY (productId) *)
Definition product_sold (id : Z) (db : Database) : Prop :=
  Exists (λ si, SaleItem.productId si = id) (sale_items db).

(* products/delete: DELETE FROM products WHERE id = ?; returns { success: true } *)
Definition products_delete (id : Z) (shop : Shop) : reply unit * Shop :=
  if decide (is_Some (products (tables shop) !! id) ∧ product_sold id (tables shop))
  then (Failed (Sqlite SQLITE_CONSTRAINT_FOREIGNKEY), shop)
  else (Replied tt, with_products (delete id) shop).

(* a sale references the user: FOREIGN KEY (userId) *)
Definition user_sold (id : Z) (db : Database) : Prop :=
  Exists (λ s, Sale.userId s = id) (sales db).

(* users/delete: DELETE FROM users WHERE id = ? *)
Definition users_delete (id : Z) (shop : Shop) : reply unit * Shop :=
  if decide (is_Some (users (tables shop) !! id) ∧ user_sold id (tables shop))
  then (Failed (Sqlite SQLITE_CONSTRAINT_FOREIGNKEY), shop)
  else (Replied tt, with_users (delete id) shop).

(* username TEXT UNIQUE NOT NULL *)
Definition username_taken (username : string) (self : option Z) (rows : gmap Z User.t) : Prop :=
  map_Exists (λ id u, User.username u = username ∧ Some id ≠ self) rows.
Global Instance username_taken_dec username self rows : Decision (username_taken username self rows).
Proof. unfold username_taken. apply _. Defined.

Module UserPayload.
Record t := mk { id : option Z; username : string; role : string; password : option string }.
End UserPayload.

(* JS truthiness of an optional string: [if (user.password)], [x || y] *)
Definition nonempty (x : option string) : option string :=
  match x with
  | Some "" => None
  | _ => x
  end.

(* users/save.  bcrypt.hashSync(password, 10) draws a salt: the hash is
   the parameter [hashSync] of the password and of the salt drawn. *)
Definition users_save (hashSync : string → string → string) (salt : string)
    (user : UserPayload.t) (shop : Shop) : reply Z * Shop :=
  match truthy_id (UserPayload.id user) with
  | Some id =>
      match users (tables shop) !! id with
      | Some old =>
          if decide (username_taken (UserPayload.username user) (Some id) (users (tables shop)))
          then (Failed SQLITE_CONSTRAINT_UNIQUE, shop)
          else
            let password :=
              match nonempty (UserPayload.password user) with
              | Some password => hashSync password salt
              | None => User.password old
              end in
            (Replied id,
             with_users (insert id (User.mk (UserPayload.username user) password
                                            (UserPayload.role user))) shop)
      | None => (Replied id, shop)
      end
  | None =>
      if decide (username_taken (UserPayload.username user) None (users (tables shop)))
      then (Failed SQLITE_CONSTRAINT_UNIQUE, shop)
      else let rowid := seq_users shop + 1 in
           let hash := hashSync (default "password" (nonempty (UserPayload.password user))) salt in
           (Replied rowid,
            mkShop (tables (with_users (insert rowid (User.mk (UserPayload.username user) hash
                                                              (UserPayload.role user))) shop))
                   (seq_products shop) rowid)
  end.

(* runGet("SELECT * FROM users WHERE username = ?"): the row, if any *)
Definition user_by_username (username : string) (db : Database) : option (Z * User.t) :=
  snd <$> list_find (λ row, User.username row.2 = username) (map_to_list (users db)).

Inductive LoginMessage := UserNotFound | WrongPassword.

Inductive LoginResponse :=
  | LoginSuccess (user : AuthUser.t)
  | LoginFailure (message : LoginMessage).

(* auth/login; bcrypt.compareSync is the parameter [compareSync password hash] *)
Definition login (compareSync : string → string → bool) (username password : string)
    (db : Database) : LoginResponse :=
  match user_by_username username db with
  | None => LoginFailure UserNotFound
  | Some (id, user) =>
      if compareSync password (User.password user)
      then LoginSuccess (AuthUser.mk id (User.username user) (User.role user))
      else LoginFailure WrongPassword
  end.

(* what the CREATE TABLE clauses of products and users promise *)
Definition barcodes_unique (rows : gmap Z Product.t) : Prop :=
  ∀ id1 id2 p1 p2 b, rows !! id1 = Some p1 → rows !! id2 = Some p2 →
    Product.barcode p1 = Some b → Product.barcode p2 = Some b → id1 = id2.

Definition usernames_unique (rows : gmap Z User.t) : Prop :=
  ∀ id1 id2 u1 u2, rows !! id1 = Some u1 → rows !! id2 = Some u2 →
    User.username u1 = User.username u2 → id1 = id2.

Definition shop_ok (shop : Shop) : Prop :=
  foreign_keys_hold (tables shop)
  ∧ rowids_ok (tables shop)
  ∧ barcodes_unique (products (tables shop))
  ∧ usernames_unique (users (tables shop))
  ∧ (∀ id, id ∈ dom (products (tables shop)) → id ≤ seq_products shop)
  ∧ (∀ id, id ∈ dom (users (tables shop)) → id ≤ seq_users shop).

(* the requests of the handlers modelled, and the shop each leaves *)
Inductive request :=
  | PosCreateSale (now : Z) (payload : SalePayload.t)
  | ProductsSave (product : ProductPayload.t)
  | ProductsDelete (id : Z)
  | UsersSave (salt : string) (user : UserPayload.t)
  | UsersDelete (id : Z).

Definition handle (hashSync : string → string → string) (req : request) (shop : Shop) : Shop :=
  match req with
  | PosCreateSale now payload => with_tables (createSale now payload (tables shop)).2 shop
  | ProductsSave product => (products_save product shop).2
  | ProductsDelete id => (products_delete id shop).2
  | UsersSave salt user => (users_save hashSync salt user shop).2
  | UsersDelete id => (users_delete id shop).2
  end.

Definition after_requests (hashSync : string → string → string) (reqs : list request)
    (shop : Shop) : Shop :=
  fold_left (λ shop req, handle hashSync req shop) reqs shop.

Definition seed_shop : Shop := mkShop seed_db 3 1.

(* a stand-in for bcrypt in the examples: the hash is the password itself *)
Definition plain_hashSync (password salt : string) : string := password.
Definition plain_compareSync (password hash : string) : bool := String.eqb password hash.

Definition sam : UserPayload.t := UserPayload.mk None "sam" "cashier" None.
Definition pomade : ProductPayload.t :=
  ProductPayload.mk None (sample_product "pomade" 40 15 12 4).

(* a sale item references a product row named [n] *)
Definition name_sold (db : Database) (n : string) : Prop :=
  Exists (λ si, Product.name <$> products db !! SaleItem.productId si = Some n)
         (sale_items db).

(* two product rows named wax, sold once each, below five names sold 3 times *)
Definition crowded_db : Database :=
  (createSale 1000
     (cart [line 1 "wax" 1; line 2 "wax" 1; line 3 "a" 3; line 4 "b" 3; line 5 "c" 3;
            line 6 "d" 3; line 7 "e" 3] 0 0)
     (shelf_db ["wax"; "wax"; "a"; "b"; "c"; "d"; "e"])).2.

(** * Facts *)

Section run.
Implicit Types (db : Database) (items : list SaleItemPayload.t).

Lemma sale_ids_post_line saleId db item : sale_ids (post_line saleId db item) = sale_ids db.
Proof. reflexivity. Qed.

Lemma dom_products_post_line saleId db item :
    dom (products (post_line saleId db item)) = dom (products db).
Proof. unfold post_line; simpl. apply dom_alter_L. Qed.

Lemma line_body_ok saleId db item :
    saleId ∈ sale_ids db → SaleItemPayload.id item ∈ dom (products db) →
    line_body saleId item db = (Return tt, post_line saleId db item).
Proof.
    intros Hs Hp. unfold line_body, bind, insertItem_run, fk_ok.
    rewrite !bool_decide_eq_true_2 by done. reflexivity.
Qed.

Lemma line_body_throw saleId db item :
    SaleItemPayload.id item ∉ dom (products db) →
    line_body saleId item db = (Throw SQLITE_CONSTRAINT_FOREIGNKEY, db).
Proof.
    intros Hp. unfold line_body, bind, insertItem_run, fk_ok.
    rewrite (bool_decide_eq_false_2 (_ ∈ dom _)) by done.
    rewrite andb_false_r. reflexivity.
Qed.

Lemma forEach_lines_ok saleId items db :
    saleId ∈ sale_ids db → lines_ok items db = true →
    forEach items (line_body saleId) db = (Return tt, post_lines saleId items db).
Proof.
    revert db. induction items as [|item items IH]; intros db Hs Hl; [done|].
    simpl in Hl. apply andb_true_iff in Hl as [Hi Hl].
    apply bool_decide_eq_true in Hi.
    simpl. unfold bind at 1. rewrite line_body_ok by done.
    apply IH; [by rewrite sale_ids_post_line|].
    unfold lines_ok. by rewrite dom_products_post_line.
Qed.

Lemma forEach_lines_throw saleId items db :
    saleId ∈ sale_ids db → lines_ok items db = false →
    ∃ db', forEach items (line_body saleId) db = (Throw SQLITE_CONSTRAINT_FOREIGNKEY, db').
Proof.
    revert db. induction items as [|item items IH]; intros db Hs Hl; [done|].
    simpl in Hl. simpl. unfold bind at 1.
    destruct (decide (SaleItemPayload.id item ∈ dom (products db))) as [Hi|Hi].
    - rewrite line_body_ok by done.
      rewrite bool_decide_eq_true_2 in Hl by done. simpl in Hl.
      apply IH; [by rewrite sale_ids_post_line|].
      unfold lines_ok. by rewrite dom_products_post_line.
    - rewrite line_body_throw by done. eauto.
Qed.

Lemma sale_id_pushed row db : Sale.id row ∈ sale_ids (push_sale row db).
Proof. unfold sale_ids; simpl. rewrite fmap_app. set_solver. Qed.

  (* the three ways a run of the handler can go *)
Lemma createSale_header_throw now payload db :
    header_ok payload db = false →
    createSale now payload db = (Throw SQLITE_CONSTRAINT_FOREIGNKEY, db).
Proof.
    intros H. unfold createSale, bind, insertSale_run.
    unfold header_ok in H. by rewrite H.
Qed.

Lemma createSale_ok now payload db :
    header_ok payload db = true → lines_ok (SalePayload.items payload) db = true →
    createSale now payload db =
      (Return (sale_result payload db),
       post_lines (seq_sales db + 1) (SalePayload.items payload)
                  (push_sale (sale_row now payload db) db)).
Proof.
    intros Hh Hl. unfold createSale, bind at 1, insertSale_run.
    unfold header_ok in Hh. rewrite Hh.
    unfold bind, transaction.
    change (λ item, _) with (line_body (seq_sales db + 1)).
    rewrite (forEach_lines_ok _ _ _); [reflexivity| |done].
    apply (sale_id_pushed (sale_row now payload db)).
Qed.

Lemma createSale_lines_throw now payload db :
    header_ok payload db = true → lines_ok (SalePayload.items payload) db = false →
    createSale now payload db =
      (Throw SQLITE_CONSTRAINT_FOREIGNKEY, push_sale (sale_row now payload db) db).
Proof.
    intros Hh Hl. unfold createSale, bind at 1, insertSale_run.
    unfold header_ok in Hh. rewrite Hh.
    unfold bind, transaction.
    change (λ item, _) with (line_body (seq_sales db + 1)).
    destruct (forEach_lines_throw (seq_sales db + 1) (SalePayload.items payload)
                (push_sale (sale_row now payload db) db)) as [db' Hdb'];
      [apply (sale_id_pushed (sale_row now payload db))|done|].
    unfold sale_row, sale_result, taxable in Hdb'. simpl in Hdb'.
    rewrite Hdb'. reflexivity.
Qed.
End run.

(** ** What a posted cart leaves in the tables *)

Section tables.
Implicit Types (db : Database) (items : list SaleItemPayload.t).

Lemma or_zero_id x : or_zero x = x.
Proof. unfold or_zero. by case_decide. Qed.

Lemma decrement_0 p : decrement 0 p = p.
Proof. destruct p; unfold decrement; simpl. f_equal. lia. Qed.

Lemma decrement_decrement a b p : decrement b (decrement a p) = decrement (a + b) p.
Proof. unfold decrement; simpl. f_equal. lia. Qed.

Lemma posted_cons item items pid :
  posted (item :: items) pid =
    (if decide (SaleItemPayload.id item = pid) then SaleItemPayload.quantity item else 0)
    + posted items pid.
Proof.
  unfold posted, sum_Z. rewrite filter_cons.
  repeat case_decide; simpl; (lia || done).
Qed.

Lemma posted_unreferenced items pid :
  pid ∉ SaleItemPayload.id <$> items → posted items pid = 0.
Proof.
  induction items as [|item items IH]; intros Hn; [done|].
  rewrite posted_cons. rewrite fmap_cons in Hn.
  apply not_elem_of_cons in Hn as [Hne Hn].
  rewrite decide_False by done. rewrite IH by done. lia.
Qed.

Lemma products_post_lines saleId items db pid :
  products (post_lines saleId items db) !! pid
  = decrement (posted items pid) <$> products db !! pid.
Proof.
  revert db. induction items as [|item items IH]; intros db.
  - simpl. destruct (products db !! pid) as [p|]; simpl; [|done].
    by rewrite decrement_0.
  - unfold post_lines in *. simpl. rewrite IH. rewrite posted_cons.
    unfold post_line; simpl. rewrite lookup_alter.
    destruct (decide (SaleItemPayload.id item = pid)) as [->|Hne].
    + destruct (products db !! pid) as [p|]; simpl; [|done].
      by rewrite decrement_decrement.
    + by rewrite Z.add_0_l.
Qed.

Lemma sales_post_lines saleId items db :
  sales (post_lines saleId items db) = sales db.
Proof.
  revert db. induction items as [|item items IH]; intros db; [done|].
  unfold post_lines in *. simpl. by rewrite IH.
Qed.

Lemma sale_items_post_lines saleId items db :
  sale_items (post_lines saleId items db)
  = sale_items db ++ item_rows saleId (seq_sale_items db) items.
Proof.
  revert db. induction items as [|item items IH]; intros db.
  - simpl. by rewrite app_nil_r.
  - unfold post_lines in *. simpl. rewrite IH. simpl. by rewrite <- app_assoc.
Qed.

Lemma createSale_Return_inv now payload db r db' :
  createSale now payload db = (Return r, db') →
  header_ok payload db = true
  ∧ lines_ok (SalePayload.items payload) db = true
  ∧ r = sale_result payload db
  ∧ db' = post_lines (seq_sales db + 1) (SalePayload.items payload)
                     (push_sale (sale_row now payload db) db).
Proof.
  intros H.
  destruct (header_ok payload db) eqn:Hh;
    [|rewrite createSale_header_throw in H by done; discriminate].
  destruct (lines_ok (SalePayload.items payload) db) eqn:Hl;
    [|rewrite createSale_lines_throw in H by done; discriminate].
  rewrite createSale_ok in H by done. by injection H as <- <-.
Qed.

Lemma cart_subtotal_sum items : cart_subtotal items = sum_Qc (line_amount <$> items).
Proof.
  unfold cart_subtotal.
  assert (∀ acc, fold_left (λ acc item,
            (acc + SaleItemPayload.price item * Qc_of_Z (SaleItemPayload.quantity item))%Qc)
            items acc = (acc + sum_Qc (line_amount <$> items))%Qc) as H.
  { unfold sum_Qc. induction items as [|item items IH]; intros acc; simpl.
    - ring.
    - rewrite IH. symmetry. apply Qcplus_assoc. }
  rewrite H. ring.
Qed.
End tables.

(** ** Posting a sale *)

Section posting.
Implicit Types (db : Database) (payload : SalePayload.t).

Lemma sales_after_post now payload db :
  sales (post_lines (seq_sales db + 1) (SalePayload.items payload)
                    (push_sale (sale_row now payload db) db))
  = sales db ++ [sale_row now payload db].
Proof. by rewrite sales_post_lines. Qed.

Lemma Qcmax_0_nonneg (x : Qc) : (0 ≤ x)%Qc → Qcmax 0 x = x.
Proof. intros H. unfold Qcmax. by rewrite decide_True. Qed.

Lemma Qcminus_nonneg (x y : Qc) : (y ≤ x)%Qc → (0 ≤ x - y)%Qc.
Proof. intros H. by apply Qcle_minus_iff in H. Qed.

Lemma Qcminus_neg (x y : Qc) : (x < y)%Qc → (x - y < 0)%Qc.
Proof.
  intros H. apply (Qcplus_lt_mono_r _ _ y).
  by replace (x - y + y)%Qc with x by ring; replace (0 + y)%Qc with y by ring.
Qed.

Lemma header_ok_false payload db :
  header_ok payload db = false
  ↔ SalePayload.userId payload ∉ dom (users db)
    ∨ ∃ c, SalePayload.customerId payload = Some c ∧ c ≠ 0 ∧ c ∉ customers db.
Proof.
  unfold header_ok. rewrite andb_false_iff. simpl.
  rewrite (bool_decide_eq_false (SalePayload.userId payload ∈ dom (users db))).
  split.
  - intros [Hc|Hu]; [right|by left].
    destruct (SalePayload.customerId payload) as [c|]; [|done].
    destruct (decide (c = 0)) as [->|Hne]; [done|].
    exists c. split_and!; [done..|].
    destruct c; try done; simpl in Hc; by apply bool_decide_eq_false in Hc.
  - intros [Hu|(c & -> & Hne & Hc)]; [by right|left].
    destruct c; try done; simpl; by apply bool_decide_eq_false.
Qed.

(** X3: createSale leaves no trace exactly when the header's references
    are missing.  The call fails with the foreign-key error and the
    database as it was if and only if the payload's userId is the id of
    no user, or its customerId is a number other than 0 that is the id of
    no customer.  A customerId of 0 is stored as NULL and checked against
    nothing; in every other failing call the header row is written. *)
Theorem createSale_unknown_user_writes_nothing now payload db :
  createSale now payload db = (Throw SQLITE_CONSTRAINT_FOREIGNKEY, db)
  ↔ SalePayload.userId payload ∉ dom (users db)
    ∨ ∃ c, SalePayload.customerId payload = Some c ∧ c ≠ 0 ∧ c ∉ customers db.
Proof.
  rewrite <- header_ok_false. split; [|apply createSale_header_throw].
  intros H. destruct (header_ok payload db) eqn:Hh; [exfalso|done].
  destruct (lines_ok (SalePayload.items payload) db) eqn:Hl.
  - by rewrite createSale_ok in H.
  - rewrite createSale_lines_throw in H by done. injection H as H.
    apply (f_equal (λ db, length (sales db))) in H. simpl in H.
    rewrite length_app in H. simpl in H. lia.
Qed.

(** C1, as the code has it: the Sale header is inserted before the
    transaction opens.  When the header's references exist and a line
    names a product that does not, the item insert fails, the
    transaction rolls back the items and the stock, the call throws, and
    the header row of the attempt stays in the table. *)
Theorem createSale_failed_commit_keeps_header now payload db :
  header_ok payload db = true →
  lines_ok (SalePayload.items payload) db = false →
  ∃ db', createSale now payload db = (Throw SQLITE_CONSTRAINT_FOREIGNKEY, db')
         ∧ sales db' = sales db ++ [sale_row now payload db]
         ∧ sale_items db' = sale_items db
         ∧ products db' = products db.
Proof.
  intros Hh Hl. eexists. split; [by apply createSale_lines_throw|]. done.
Qed.

Lemma createSale_failed_commit_keeps_header_witness :
  ∃ db', createSale 1000 (cart [haircut 1; ghost 1] 0 100) seed_db
         = (Throw SQLITE_CONSTRAINT_FOREIGNKEY, db')
         ∧ sales db' = sales seed_db
                       ++ [sale_row 1000 (cart [haircut 1; ghost 1] 0 100) seed_db]
         ∧ sale_items db' = sale_items seed_db
         ∧ products db' = products seed_db.
Proof.
  apply (createSale_failed_commit_keeps_header 1000 (cart [haircut 1; ghost 1] 0 100) seed_db);
    vm_compute; reflexivity.
Defined.

(** C2 fails: the empty cart is one of the carts the specification wants
    rejected with the store untouched, and posting it on the seeded
    database does not throw and adds a Sale row. *)
Lemma empty_cart_is_posted :
  invalid_cart (cart [] 0 0) seed_db
  ∧ (createSale 1000 (cart [] 0 0) seed_db).1 = Return (sale_result (cart [] 0 0) seed_db)
  ∧ length (sales (createSale 1000 (cart [] 0 0) seed_db).2) = 1%nat
  ∧ sales seed_db = [].
Proof.
  split; [by left|].
  rewrite createSale_ok by (vm_compute; reflexivity). done.
Qed.

(** C2, amended: createSale validates nothing itself.  With a customer
    and a user that exist, (a) an empty cart is posted: the header is
    recorded and a result returned; (b) a cart whose products all exist
    is posted whatever its quantities are, a line of quantity q <= 0
    moving the stock by -q like any other line; (c) a line that names a
    missing product makes the commit throw the store's foreign-key
    error, and no SaleItem row and no stock change of the attempt
    remains. *)
Theorem createSale_validates_nothing now payload db :
  header_ok payload db = true →
  (SalePayload.items payload = [] →
     createSale now payload db
     = (Return (sale_result payload db), push_sale (sale_row now payload db) db))
  ∧ (lines_ok (SalePayload.items payload) db = true →
     ∃ db', createSale now payload db = (Return (sale_result payload db), db')
            ∧ ∀ pid, products db' !! pid
                     = decrement (posted (SalePayload.items payload) pid)
                         <$> products db !! pid)
  ∧ (lines_ok (SalePayload.items payload) db = false →
     ∃ db', createSale now payload db = (Throw SQLITE_CONSTRAINT_FOREIGNKEY, db')
            ∧ sale_items db' = sale_items db
            ∧ products db' = products db).
Proof.
  intros Hh. split; [|split].
  - intros Hnil. rewrite createSale_ok; [by rewrite Hnil|done|by rewrite Hnil].
  - intros Hl. eexists. split; [by apply createSale_ok|].
    intros pid. by rewrite products_post_lines.
  - intros Hl. eexists. split; [by apply createSale_lines_throw|done].
Qed.

Lemma createSale_validates_nothing_witness :
  ∃ db', createSale 1000 (cart [haircut (-2)] 0 0) seed_db
         = (Return (sale_result (cart [haircut (-2)] 0 0) seed_db), db')
         ∧ ∀ pid, products db' !! pid
                  = decrement (posted [haircut (-2)] pid) <$> products seed_db !! pid.
Proof.
  apply (createSale_validates_nothing 1000 (cart [haircut (-2)] 0 0) seed_db);
    vm_compute; reflexivity.
Defined.

(** C3 fails: one haircut at 35 with a discount of 50 and a rate of
    15/100 is posted with a tax of -9/4, while max(0, subtotal -
    discount) x taxRate is 0. *)
Lemma tax_of_over_discounted_cart :
  (createSale 1000 (cart [haircut 1] 50 0) seed_db).1
  = Return (sale_result (cart [haircut 1] 50 0) seed_db)
  ∧ SaleResult.taxValue (sale_result (cart [haircut 1] 50 0) seed_db) = Q2Qc (-9 # 4)
  ∧ spec_tax (cart [haircut 1] 50 0) = 0%Qc.
Proof.
  split; [|split].
  - by rewrite createSale_ok by (vm_compute; reflexivity).
  - by apply Qc_is_canon.
  - by apply Qc_is_canon.
Qed.

(** C3, amended: the tax returned and recorded by a successful post is
    (subtotal - discount) x taxRate, subtotal being the sum of price x
    quantity over the lines, with no clamp: it is the clamped value
    whenever discount <= subtotal, and it is negative when the discount
    exceeds the subtotal and the rate is positive. *)
Theorem createSale_tax now payload db r db' :
  createSale now payload db = (Return r, db') →
  let subtotal := sum_Qc (line_amount <$> SalePayload.items payload) in
  SaleResult.taxValue r
  = ((subtotal - SalePayload.discount payload) * SalePayload.taxRate payload)%Qc
  ∧ (∃ row, sales db' = sales db ++ [row]
            ∧ Sale.id row = SaleResult.saleId r
            ∧ Sale.tax row = SaleResult.taxValue r)
  ∧ ((SalePayload.discount payload ≤ subtotal)%Qc →
     SaleResult.taxValue r = spec_tax payload)
  ∧ ((subtotal < SalePayload.discount payload)%Qc →
     (0 < SalePayload.taxRate payload)%Qc →
     (SaleResult.taxValue r < 0)%Qc).
Proof.
  intros H subtotal. apply createSale_Return_inv in H as (_ & _ & -> & ->).
  unfold subtotal. rewrite <- cart_subtotal_sum.
  unfold sale_result, taxable, spec_tax; simpl. rewrite or_zero_id.
  split; [done|]. split; [|split].
  - exists (sale_row now payload db). rewrite sales_after_post.
    unfold sale_row, sale_result, taxable. simpl. by rewrite or_zero_id.
  - intros Hle. by rewrite Qcmax_0_nonneg by by apply Qcminus_nonneg.
  - intros Hlt Hrate.
    rewrite <- (Qcmult_0_l (SalePayload.taxRate payload)).
    apply Qcmult_lt_mono_pos_r; [done|]. by apply Qcminus_neg.
Qed.

Lemma createSale_tax_witness :
  SaleResult.taxValue (sale_result (cart [haircut 1; beard_kit 1] 5 120) seed_db)
  = spec_tax (cart [haircut 1; beard_kit 1] 5 120).
Proof.
  apply (createSale_tax 1000 (cart [haircut 1; beard_kit 1] 5 120) seed_db _
           (createSale 1000 (cart [haircut 1; beard_kit 1] 5 120) seed_db).2);
    [vm_compute; reflexivity | by vm_compute].
Defined.

(** C4: a cart whose references exist is posted whatever is paid: the
    call returns, and it returns and records total = (subtotal -
    discount) + tax and changeAmount = paidAmount - total, subtotal
    being the sum of price x quantity over the lines.  No condition is
    put on paidAmount: a payment below the total is posted and its
    negative change returned. *)
Theorem createSale_total_and_change now payload db :
  header_ok payload db = true →
  lines_ok (SalePayload.items payload) db = true →
  let subtotal := sum_Qc (line_amount <$> SalePayload.items payload) in
  ∃ r db',
    createSale now payload db = (Return r, db')
    ∧ SaleResult.total r
      = (subtotal - SalePayload.discount payload + SaleResult.taxValue r)%Qc
    ∧ SaleResult.changeAmount r = (SalePayload.paidAmount payload - SaleResult.total r)%Qc
    ∧ (∃ row, sales db' = sales db ++ [row]
              ∧ Sale.id row = SaleResult.saleId r
              ∧ Sale.total row = SaleResult.total r
              ∧ Sale.paidAmount row = SalePayload.paidAmount payload
              ∧ Sale.changeAmount row = SaleResult.changeAmount r)
    ∧ ((SalePayload.paidAmount payload < SaleResult.total r)%Qc →
       (SaleResult.changeAmount r < 0)%Qc).
Proof.
  intros Hh Hl subtotal. eexists _, _. split; [by apply createSale_ok|].
  unfold subtotal. rewrite <- cart_subtotal_sum.
  unfold sale_result, taxable; simpl. rewrite or_zero_id.
  split; [done|]. split; [done|]. split.
  - exists (sale_row now payload db). rewrite sales_after_post.
    unfold sale_row, sale_result, taxable. simpl. by rewrite or_zero_id.
  - apply Qcminus_neg.
Qed.

Lemma createSale_total_and_change_witness :
  ∃ r db',
    createSale 1000 (cart [haircut 1; beard_kit 1] 5 100) seed_db = (Return r, db')
    ∧ SaleResult.total r
      = (sum_Qc (line_amount <$> [haircut 1; beard_kit 1]) - Qc_of_Z 5
         + SaleResult.taxValue r)%Qc
    ∧ SaleResult.changeAmount r = (Qc_of_Z 100 - SaleResult.total r)%Qc
    ∧ (∃ row, sales db' = sales seed_db ++ [row]
              ∧ Sale.id row = SaleResult.saleId r
              ∧ Sale.total row = SaleResult.total r
              ∧ Sale.paidAmount row = Qc_of_Z 100
              ∧ Sale.changeAmount row = SaleResult.changeAmount r)
    ∧ ((Qc_of_Z 100 < SaleResult.total r)%Qc → (SaleResult.changeAmount r < 0)%Qc).
Proof.
  apply (createSale_total_and_change 1000 (cart [haircut 1; beard_kit 1] 5 100) seed_db);
    vm_compute; reflexivity.
Defined.

(* the example of the specification, paid 120, and the same cart paid 100 *)
Example createSale_sample_totals :
  let r := sale_result (cart [haircut 1; beard_kit 1] 5 120) seed_db in
  let r' := sale_result (cart [haircut 1; beard_kit 1] 5 100) seed_db in
  SaleResult.taxValue r = Q2Qc (27 # 2)
  ∧ SaleResult.total r = Q2Qc (207 # 2)
  ∧ SaleResult.changeAmount r = Q2Qc (33 # 2)
  ∧ SaleResult.changeAmount r' = Q2Qc (-7 # 2).
Proof. repeat split; by apply Qc_is_canon. Qed.

(** C5: after a successful post every product row is the row it was
    with its quantity lowered by the total quantity the cart posts for
    it and every other column as before; a product the cart does not
    name keeps its row; no product row appears or disappears. *)
Theorem createSale_stock_frame now payload db r db' :
  createSale now payload db = (Return r, db') →
  dom (products db') = dom (products db)
  ∧ (∀ item, item ∈ SalePayload.items payload →
       ∃ p, products db !! SaleItemPayload.id item = Some p
            ∧ products db' !! SaleItemPayload.id item
              = Some (decrement (posted (SalePayload.items payload) (SaleItemPayload.id item)) p))
  ∧ (∀ pid p, products db !! pid = Some p →
       ∃ p', products db' !! pid = Some p'
             ∧ Product.quantity p' = Product.quantity p - posted (SalePayload.items payload) pid
             ∧ Product.name p' = Product.name p
             ∧ Product.barcode p' = Product.barcode p
             ∧ Product.price p' = Product.price p
             ∧ Product.cost p' = Product.cost p
             ∧ Product.lowStockThreshold p' = Product.lowStockThreshold p
             ∧ Product.category p' = Product.category p
             ∧ Product.image p' = Product.image p)
  ∧ (∀ pid, pid ∉ SaleItemPayload.id <$> SalePayload.items payload →
       products db' !! pid = products db !! pid).
Proof.
  intros H. apply createSale_Return_inv in H as (Hh & Hl & -> & ->).
  assert (∀ pid, products (post_lines (seq_sales db + 1) (SalePayload.items payload)
                             (push_sale (sale_row now payload db) db)) !! pid
                 = decrement (posted (SalePayload.items payload) pid) <$> products db !! pid)
    as Hlook by (intros pid; by rewrite products_post_lines).
  split; [|split; [|split]].
  - apply set_eq. intros pid. rewrite !elem_of_dom, Hlook. by rewrite fmap_is_Some.
  - intros item Hitem.
    unfold lines_ok in Hl. rewrite forallb_forall in Hl.
    specialize (Hl item). rewrite <- list_elem_of_In in Hl.
    specialize (Hl Hitem). apply bool_decide_eq_true in Hl.
    apply elem_of_dom in Hl as [p Hp]. exists p. split; [done|].
    by rewrite Hlook, Hp.
  - intros pid p Hp. eexists. rewrite Hlook, Hp. split; [done|]. done.
  - intros pid Hn. rewrite Hlook, posted_unreferenced by done.
    destruct (products db !! pid); simpl; [|done]. by rewrite decrement_0.
Qed.

Lemma createSale_stock_frame_witness :
  ∃ p', products (createSale 1000 (cart [haircut 2; beard_kit 1; haircut 1] 0 200) seed_db).2
          !! 1 = Some p'
        ∧ Product.quantity p' = 20 - 3
        ∧ Product.name p' = "haircut"
        ∧ Product.barcode p' = None
        ∧ Product.price p' = Qc_of_Z 35
        ∧ Product.cost p' = Qc_of_Z 10
        ∧ Product.lowStockThreshold p' = 5
        ∧ Product.category p' = None
        ∧ Product.image p' = None.
Proof.
  destruct (createSale_stock_frame 1000 (cart [haircut 2; beard_kit 1; haircut 1] 0 200)
              seed_db
              (sale_result (cart [haircut 2; beard_kit 1; haircut 1] 0 200) seed_db)
              (createSale 1000 (cart [haircut 2; beard_kit 1; haircut 1] 0 200) seed_db).2
              ltac:(vm_compute; reflexivity)) as (_ & _ & Hrow & _).
  apply (Hrow 1 (sample_product "haircut" 35 10 20 5)). vm_compute; reflexivity.
Defined.
End posting.

(** ** Two posts in flight together *)

Section together.
Implicit Types (db : Database) (payload : SalePayload.t) (call : Z * SalePayload.t).

Lemma users_post_lines saleId items db : users (post_lines saleId items db) = users db.
Proof.
  revert db. induction items as [|item items IH]; intros db; [done|].
  unfold post_lines in *. simpl. by rewrite IH.
Qed.

Lemma customers_post_lines saleId items db :
  customers (post_lines saleId items db) = customers db.
Proof.
  revert db. induction items as [|item items IH]; intros db; [done|].
  unfold post_lines in *. simpl. by rewrite IH.
Qed.

Lemma dom_products_post_lines saleId items db :
  dom (products (post_lines saleId items db)) = dom (products db).
Proof.
  apply set_eq. intros pid.
  by rewrite !elem_of_dom, products_post_lines, fmap_is_Some.
Qed.

Lemma createSale_Return_keeps_refs now payload db r db' :
  createSale now payload db = (Return r, db') →
  (∀ payload2, header_ok payload2 db' = header_ok payload2 db)
  ∧ (∀ items, lines_ok items db' = lines_ok items db)
  ∧ (∀ pid, products db' !! pid
            = decrement (posted (SalePayload.items payload) pid) <$> products db !! pid).
Proof.
  intros H. apply createSale_Return_inv in H as (_ & _ & _ & ->).
  split; [|split].
  - intros payload2. unfold header_ok.
    by rewrite users_post_lines, customers_post_lines.
  - intros items. unfold lines_ok. by rewrite dom_products_post_lines.
  - intros pid. by rewrite products_post_lines.
Qed.

Lemma createSale_Return_iff now payload db :
  (∃ r db', createSale now payload db = (Return r, db'))
  ↔ header_ok payload db = true ∧ lines_ok (SalePayload.items payload) db = true.
Proof.
  split.
  - intros (r & db' & H). by apply createSale_Return_inv in H as (? & ? & _).
  - intros [Hh Hl]. eexists _, _. by apply createSale_ok.
Qed.

Lemma post_all_pair call1 call2 db db' :
  post_all [call1; call2] db = (Return tt, db')
  ↔ ∃ r1 db1 r2, createSale call1.1 call1.2 db = (Return r1, db1)
                 ∧ createSale call2.1 call2.2 db1 = (Return r2, db').
Proof.
  unfold post_all; simpl. unfold bind, ret.
  destruct (createSale call1.1 call1.2 db) as [[r1|e1] db1] eqn:H1.
  - destruct (createSale call2.1 call2.2 db1) as [[r2|e2] db2] eqn:H2.
    + split.
      * intros [= <-]. by exists r1, db1, r2.
      * intros (? & ? & ? & [= <- <-] & H). rewrite H2 in H. by injection H as <- <-.
    + split; [done|]. intros (? & ? & ? & [= <- <-] & H). by rewrite H2 in H.
  - split; [done|]. by intros (? & ? & ? & [=] & _).
Qed.

Lemma post_all_pair_stock call1 call2 db db' :
  post_all [call1; call2] db = (Return tt, db') →
  ∀ pid, products db' !! pid
         = decrement (posted (SalePayload.items call1.2) pid
                      + posted (SalePayload.items call2.2) pid)
             <$> products db !! pid.
Proof.
  intros (r1 & db1 & r2 & H1 & H2)%post_all_pair pid.
  apply createSale_Return_keeps_refs in H1 as (_ & _ & H1).
  apply createSale_Return_keeps_refs in H2 as (_ & _ & H2).
  rewrite H2, H1. destruct (products db !! pid) as [p|]; simpl; [|done].
  by rewrite decrement_decrement.
Qed.

Lemma post_all_pair_swap call1 call2 db db' :
  post_all [call1; call2] db = (Return tt, db') →
  ∃ db'', post_all [call2; call1] db = (Return tt, db'').
Proof.
  intros (r1 & db1 & r2 & H1 & H2)%post_all_pair.
  pose proof (createSale_Return_keeps_refs _ _ _ _ _ H1) as (Hh & Hl & _).
  assert (∃ r db2, createSale call2.1 call2.2 db = (Return r, db2)) as (r & db2 & H3).
  { apply createSale_Return_iff. rewrite <- Hh, <- Hl.
    apply (createSale_Return_iff call2.1). eauto. }
  pose proof (createSale_Return_keeps_refs _ _ _ _ _ H3) as (Hh' & Hl' & _).
  assert (∃ r' db3, createSale call1.1 call1.2 db2 = (Return r', db3)) as (r' & db3 & H4).
  { apply createSale_Return_iff. rewrite Hh', Hl'.
    apply (createSale_Return_iff call1.1). eauto. }
  exists db3. apply post_all_pair. eauto.
Qed.

(** C6: two posts that are in flight together are run by the main
    process one after the other, in either order.  Whichever order is
    taken, when both posts succeed every product ends with its initial
    quantity minus the sum of the two posted quantities; the other order
    succeeds as well and leaves the same product table.  The decrement
    is the single statement [quantity = quantity - ?], run inside the
    transaction of its post. *)
Theorem concurrent_posts_keep_every_decrement db call1 call2 order db' :
  order ∈ serializations call1 call2 →
  post_all order db = (Return tt, db') →
  (∀ pid p, products db !! pid = Some p →
     ∃ p', products db' !! pid = Some p'
           ∧ Product.quantity p'
             = Product.quantity p
               - (posted (SalePayload.items call1.2) pid
                  + posted (SalePayload.items call2.2) pid))
  ∧ (∀ order2, order2 ∈ serializations call1 call2 →
       ∃ db2, post_all order2 db = (Return tt, db2) ∧ products db2 = products db').
Proof.
  intros Horder Hrun.
  assert (∀ pid, products db' !! pid
                 = decrement (posted (SalePayload.items call1.2) pid
                              + posted (SalePayload.items call2.2) pid)
                     <$> products db !! pid) as Hstock.
  { intros pid. unfold serializations in Horder.
    apply elem_of_cons in Horder as [->|Horder];
      [|apply list_elem_of_singleton in Horder as ->].
    - by apply post_all_pair_stock.
    - rewrite Z.add_comm. by apply (post_all_pair_stock call2 call1). }
  split.
  - intros pid p Hp. eexists. rewrite Hstock, Hp. done.
  - intros order2 Horder2.
    assert (∃ db2, post_all order2 db = (Return tt, db2)) as [db2 Hrun2].
    { unfold serializations in *.
      apply elem_of_cons in Horder as [->|Horder];
        [|apply list_elem_of_singleton in Horder as ->];
        (apply elem_of_cons in Horder2 as [->|Horder2];
          [|apply list_elem_of_singleton in Horder2 as ->]);
        eauto using post_all_pair_swap. }
    exists db2. split; [done|]. apply map_eq. intros pid. rewrite Hstock.
    unfold serializations in Horder2.
    apply elem_of_cons in Horder2 as [->|Horder2];
      [|apply list_elem_of_singleton in Horder2 as ->].
    + by apply post_all_pair_stock.
    + rewrite Z.add_comm. by apply (post_all_pair_stock call2 call1).
Qed.

Lemma concurrent_posts_keep_every_decrement_witness :
  ∃ p', products (post_all [(2000, cart [haircut 3] 0 200);
                            (1000, cart [haircut 2; beard_kit 1] 0 200)] seed_db).2
          !! 1 = Some p'
        ∧ Product.quantity p' = 20 - (2 + 3).
Proof.
  destruct (concurrent_posts_keep_every_decrement seed_db
              (1000, cart [haircut 2; beard_kit 1] 0 200) (2000, cart [haircut 3] 0 200)
              [(2000, cart [haircut 3] 0 200); (1000, cart [haircut 2; beard_kit 1] 0 200)]
              (post_all [(2000, cart [haircut 3] 0 200);
                         (1000, cart [haircut 2; beard_kit 1] 0 200)] seed_db).2
              ltac:(unfold serializations; apply list_elem_of_further, list_elem_of_here)
              ltac:(vm_compute; reflexivity)) as [Hrow _].
  apply (Hrow 1 (sample_product "haircut" 35 10 20 5)). vm_compute; reflexivity.
Defined.
End together.

(** ** GROUP BY *)

Section group_values.
Context `{EqDecision K} {V : Type}.
Implicit Types (rows : list (K * V)) (k : K).

Lemma group_values_cons kv rows k :
  group_values k (kv :: rows)
  = if decide (kv.1 = k) then kv.2 :: group_values k rows else group_values k rows.
Proof. unfold group_values. rewrite filter_cons. by case_decide. Qed.

Lemma group_values_nil_iff rows k : group_values k rows = [] ↔ k ∉ rows.*1.
Proof.
  induction rows as [|kv rows IH]; [split; [set_solver|done]|].
  rewrite group_values_cons, fmap_cons, not_elem_of_cons.
  case_decide; [split; [done|intros [? _]; congruence]|].
  rewrite IH. split; [by split|by intros [_ ?]].
Qed.
End group_values.

Section group_by.
Context `{Countable K} {V : Type} (add : V → V → V) (zero : V).
Hypothesis add_zero : ∀ v, add v zero = v.
Implicit Types (rows : list (K * V)) (k : K).

Lemma group_by_lookup rows k :
  group_by add rows !! k
  = match group_values k rows with
    | [] => None
    | vs => Some (foldr add zero vs)
    end.
Proof.
  induction rows as [|kv rows IH]; [done|].
  rewrite group_values_cons. simpl.
  destruct (decide (kv.1 = k)) as [->|Hne].
  - rewrite lookup_insert_eq, IH.
    destruct (group_values k rows); simpl; [by rewrite add_zero|done].
  - by rewrite lookup_insert_ne.
Qed.
End group_by.

(** ** ORDER BY and LIMIT *)

Section order_by.
Context {A : Type} (R : relation A) `{!Transitive R}.
Implicit Types (rows l : list A).

Lemma order_by_take_sorted rows l n : order_by R rows l → Sorted R (take n l).
Proof.
  intros [_ Hs]. apply StronglySorted_Sorted.
  apply Sorted_StronglySorted in Hs; [|done].
  rewrite <- (take_drop n l) in Hs. by apply StronglySorted_app_1_l in Hs.
Qed.

Lemma order_by_take_elem_of rows l n x : order_by R rows l → x ∈ take n l → x ∈ rows.
Proof. intros [Hp _] Hx. rewrite Hp. by apply (subseteq_take n). Qed.

(* what LIMIT leaves out ranks no higher than what it keeps *)
Lemma order_by_take_best rows l n x y :
  order_by R rows l → x ∈ rows → x ∉ take n l → y ∈ take n l → R y x.
Proof.
  intros [Hp Hs] Hx Hnx Hy.
  apply Sorted_StronglySorted in Hs; [|done].
  rewrite <- (take_drop n l) in Hs.
  apply (StronglySorted_app_1_elem_of _ _ _ _ _ Hs); [done|].
  rewrite Hp, <- (take_drop n l), elem_of_app in Hx. by destruct Hx.
Qed.
End order_by.

(** ** topProducts *)

Section top_products.
Implicit Types (db : Database) (r : list (string * Z)).

Global Instance qty_desc_trans : Transitive qty_desc.
Proof. intros a b c. unfold qty_desc. lia. Qed.

Global Instance qty_desc_total : Total qty_desc.
Proof. intros a b. unfold qty_desc. lia. Qed.

Lemma product_totals_lookup db n :
  product_totals db !! n
  = match group_values n (sold_lines db) with
    | [] => None
    | vs => Some (sum_Z vs)
    end.
Proof. apply (group_by_lookup Z.add 0). intros v. lia. Qed.

Lemma product_totals_Some db n q :
  product_totals db !! n = Some q
  ↔ n ∈ (sold_lines db).*1 ∧ q = sum_Z (group_values n (sold_lines db)).
Proof.
  rewrite product_totals_lookup.
  destruct (group_values n (sold_lines db)) as [|v vs] eqn:Hv.
  - apply group_values_nil_iff in Hv. naive_solver.
  - assert (n ∈ (sold_lines db).*1) as Hn.
    { destruct (decide (n ∈ (sold_lines db).*1)) as [|Hn]; [done|].
      apply group_values_nil_iff in Hn. congruence. }
    naive_solver.
Qed.

(* the evaluator returns one of the answers the statement allows *)
Lemma topProducts_allowed db : topProducts_rows db (topProducts db).
Proof.
  exists (merge_sort qty_desc (map_to_list (product_totals db))). split; [|done].
  split; [by rewrite merge_sort_Permutation|]. apply Sorted_merge_sort, _.
Qed.

(** C7 fails: with A sold 5 times and B and C 7 times each, the answer
    C, B, A is in descending order of quantity, so the statement allows
    it, and it does not put B before C. *)
Lemma topProducts_tie_not_by_name :
  topProducts_rows letters_db [("C", 7); ("B", 7); ("A", 5)]
  ∧ ¬ Sorted qty_desc_name_asc [("C", 7); ("B", 7); ("A", 5)].
Proof.
  split.
  - exists [("C", 7); ("B", 7); ("A", 5)]. split; [|done]. split.
    + replace (map_to_list (product_totals letters_db))
        with [("C", 7); ("A", 5); ("B", 7)] by (vm_compute; reflexivity).
      apply perm_skip, perm_swap.
    + repeat constructor; unfold qty_desc; simpl; lia.
  - intros Hs. apply Sorted_inv in Hs as [_ Hh]. apply HdRel_inv in Hh.
    destruct Hh as [Hlt|[_ Hle]]; [simpl in Hlt; lia|]. by vm_compute in Hle.
Qed.

Lemma topProducts_rows_facts db r :
  topProducts_rows db r →
  NoDup r.*1
  ∧ (∀ n q, (n, q) ∈ r →
       n ∈ (sold_lines db).*1 ∧ q = sum_Z (group_values n (sold_lines db))).
Proof.
  intros (l & Hl & ->). pose proof Hl as [Hp Hs]. split.
  - rewrite fmap_take. apply (sublist_NoDup _ (l.*1)); [|apply sublist_take].
    rewrite <- Hp. apply NoDup_fst_map_to_list.
  - intros n q Hin. apply product_totals_Some, elem_of_map_to_list.
    by apply (order_by_take_elem_of qty_desc _ l 5).
Qed.

(** C7, amended: every answer the statement allows holds min(5, number
    of names sold) entries with distinct product names, each with the
    summed SaleItem quantity of the product rows of that name, in
    descending order of quantity, and a name left out has a quantity no
    larger than any entry.  Which of several names of equal quantity
    comes first, or makes the cut, is not determined. *)
Theorem topProducts_rows_ranked db r :
  topProducts_rows db r →
  length r = (5 `min` size (product_totals db))%nat
  ∧ Sorted qty_desc r
  ∧ NoDup r.*1
  ∧ (∀ n q, (n, q) ∈ r →
       n ∈ (sold_lines db).*1 ∧ q = sum_Z (group_values n (sold_lines db)))
  ∧ (∀ n, n ∈ (sold_lines db).*1 → n ∉ r.*1 →
       ∀ n' q', (n', q') ∈ r → sum_Z (group_values n (sold_lines db)) ≤ q').
Proof.
  intros (l & Hl & ->). pose proof Hl as [Hp Hs].
  split; [|split; [|split; [|split]]].
  - by rewrite length_take, <- Hp, length_map_to_list.
  - by apply (order_by_take_sorted _ (map_to_list (product_totals db))).
  - by apply (topProducts_rows_facts db); exists l.
  - by apply (topProducts_rows_facts db); exists l.
  - intros n Hn Hout n' q' Hin.
    apply (order_by_take_best qty_desc _ l 5
             (n, sum_Z (group_values n (sold_lines db))) (n', q') Hl); [| |done].
    + apply elem_of_map_to_list, product_totals_Some. done.
    + intros Hin'. apply Hout. apply list_elem_of_fmap. by eexists (_, _).
Qed.

Lemma topProducts_rows_ranked_witness :
  length (topProducts letters_db) = (5 `min` size (product_totals letters_db))%nat
  ∧ Sorted qty_desc (topProducts letters_db)
  ∧ NoDup (topProducts letters_db).*1
  ∧ (∀ n q, (n, q) ∈ topProducts letters_db →
       n ∈ (sold_lines letters_db).*1
       ∧ q = sum_Z (group_values n (sold_lines letters_db)))
  ∧ (∀ n, n ∈ (sold_lines letters_db).*1 → n ∉ (topProducts letters_db).*1 →
       ∀ n' q', (n', q') ∈ topProducts letters_db →
         sum_Z (group_values n (sold_lines letters_db)) ≤ q').
Proof.
  apply (topProducts_rows_ranked letters_db (topProducts letters_db)).
  exists [("B", 7); ("C", 7); ("A", 5)]. split; [|vm_compute; reflexivity].
  split.
  - replace (map_to_list (product_totals letters_db))
      with [("C", 7); ("A", 5); ("B", 7)] by (vm_compute; reflexivity).
    etrans; [apply perm_skip, perm_swap|apply perm_swap].
  - repeat constructor; unfold qty_desc; simpl; lia.
Defined.

Lemma NoDup_fst_filter_length {V} (l : list (string * V)) n :
  NoDup l.*1 → (length (filter (λ e, e.1 = n) l) ≤ 1)%nat.
Proof.
  induction l as [|e l IH]; [simpl; lia|].
  rewrite fmap_cons, NoDup_cons. intros [Hnotin Hnodup].
  rewrite filter_cons. case_decide as He; [|by apply IH].
  rewrite He in Hnotin. apply group_values_nil_iff in Hnotin.
  unfold group_values in Hnotin. apply fmap_nil_inv in Hnotin.
  rewrite Hnotin. simpl. lia.
Qed.

Lemma sum_Z_cons x l : sum_Z (x :: l) = x + sum_Z l.
Proof. reflexivity. Qed.

Lemma sum_Z_filter {A} (P : A → Prop) `{∀ x, Decision (P x)} (f : A → Z) (l : list A) :
  sum_Z (f <$> filter P l) = sum_Z ((λ x, if decide (P x) then f x else 0) <$> l).
Proof.
  induction l as [|x l IH]; [done|].
  rewrite filter_cons, (fmap_cons _ x l), sum_Z_cons, <- IH.
  case_decide; [by rewrite fmap_cons, sum_Z_cons|lia].
Qed.

Lemma sum_Z_group_values_omap {A} (g : A → option (string * Z)) n (l : list A) :
  sum_Z (group_values n (omap g l))
  = sum_Z ((λ x, match g x with
                 | Some kv => if decide (kv.1 = n) then kv.2 else 0
                 | None => 0
                 end) <$> l).
Proof.
  induction l as [|x l IH]; [done|].
  rewrite fmap_cons, sum_Z_cons, <- IH. simpl.
  change (list_omap A (string * Z)%type g l) with (omap g l).
  destruct (g x) as [kv|]; [|lia].
  rewrite group_values_cons. case_decide; [by rewrite sum_Z_cons|lia].
Qed.

Lemma sum_Z_plus {A} (f g : A → Z) (l : list A) :
  sum_Z ((λ x, f x + g x) <$> l) = sum_Z (f <$> l) + sum_Z (g <$> l).
Proof.
  induction l as [|x l IH]; [done|].
  rewrite !fmap_cons, !sum_Z_cons, IH. lia.
Qed.

Lemma sold_lines_merge (prods : gmap Z Product.t) (its : list SaleItem.t) pid1 pid2 p1 p2 n :
  pid1 ≠ pid2 →
  prods !! pid1 = Some p1 → prods !! pid2 = Some p2 →
  Product.name p1 = n → Product.name p2 = n →
  sum_Z (group_values n
           (omap (λ si, (λ p, (Product.name p, SaleItem.quantity si))
                          <$> prods !! SaleItem.productId si) its))
  = sum_Z (SaleItem.quantity <$> filter (λ si, SaleItem.productId si = pid1) its)
    + sum_Z (SaleItem.quantity <$> filter (λ si, SaleItem.productId si = pid2) its)
    + sum_Z (SaleItem.quantity
               <$> filter (λ si, Product.name <$> prods !! SaleItem.productId si = Some n
                                 ∧ SaleItem.productId si ∉ [pid1; pid2]) its).
Proof.
  intros Hne H1 H2 Hn1 Hn2.
  rewrite sum_Z_group_values_omap, !sum_Z_filter, <- !sum_Z_plus.
  f_equal. apply list_fmap_ext. intros _ si _.
  destruct (decide (SaleItem.productId si = pid1)) as [E1|E1].
  { rewrite E1, H1. simpl. rewrite !decide_True by done.
    rewrite decide_False by congruence.
    rewrite decide_False by (intros [_ Hnot]; apply Hnot; set_solver). lia. }
  destruct (decide (SaleItem.productId si = pid2)) as [E2|E2].
  { rewrite E2, H2. simpl. rewrite !decide_True by done.
    rewrite decide_False by (intros [_ Hnot]; apply Hnot; set_solver). lia. }
  destruct (prods !! SaleItem.productId si) as [p|]; simpl.
  - destruct (decide (Product.name p = n)) as [En|En].
    + rewrite decide_True; [lia|]. split; [by rewrite En|set_solver].
    + rewrite decide_False; [lia|]. intros [[=] _]. done.
  - lia.
Qed.

Lemma sold_lines_elem_of db n : n ∈ (sold_lines db).*1 ↔ name_sold db n.
Proof.
  unfold name_sold, sold_lines. rewrite Exists_exists, list_elem_of_fmap. split.
  - intros ([n' q] & -> & (si & Hsi & Hp)%list_elem_of_omap).
    exists si. split; [done|].
    destruct (products db !! SaleItem.productId si) as [p|]; simpl in *; [|done].
    by simplify_eq.
  - intros (si & Hsi & Hp).
    destruct (products db !! SaleItem.productId si) as [p|] eqn:Hlook; simpl in Hp; [|done].
    exists (n, SaleItem.quantity si). split; [done|].
    apply list_elem_of_omap. exists si. split; [done|]. rewrite Hlook. simpl.
    by simplify_eq.
Qed.

(* an entry is missing only below a full answer *)
Lemma topProducts_rows_absent db r n :
  topProducts_rows db r → n ∈ (sold_lines db).*1 →
  (n, sum_Z (group_values n (sold_lines db))) ∉ r →
  length r = 5%nat
  ∧ ∀ n' q', (n', q') ∈ r → sum_Z (group_values n (sold_lines db)) ≤ q'.
Proof.
  intros (l & Hl & ->) Hn Hout.
  assert ((n, sum_Z (group_values n (sold_lines db))) ∈ map_to_list (product_totals db))
    as Hin by by apply elem_of_map_to_list, product_totals_Some.
  split.
  - rewrite length_take. destruct (decide (length l ≤ 5)%nat) as [Hle|]; [|lia].
    exfalso. apply Hout. rewrite take_ge by done. by rewrite <- (proj1 Hl).
  - intros n' q' Hin'.
    by apply (order_by_take_best qty_desc _ l 5 _ (n', q') Hl Hin Hout).
Qed.

(** C10 fails as worded: with two product rows named wax sold once
    each and five other names sold three times each, both rows are sold
    and no answer the statement allows holds an entry named wax: the
    merged group ranks sixth and LIMIT 5 cuts it. *)
Lemma topProducts_same_name_below_fifth :
  products crowded_db !! 1 = Some (sample_product "wax" 10 5 49 5)
  ∧ products crowded_db !! 2 = Some (sample_product "wax" 10 5 49 5)
  ∧ sold crowded_db 1 = 1
  ∧ sold crowded_db 2 = 1
  ∧ ∀ r, topProducts_rows crowded_db r → "wax" ∉ r.*1.
Proof.
  split_and!; [vm_compute; reflexivity..|].
  intros r Hr [[n q] [Hn Hin]]%list_elem_of_fmap. simpl in Hn. subst n.
  pose proof (topProducts_rows_facts _ _ Hr) as (Hnodup & Hfacts).
  assert (q = 2) as -> by (apply Hfacts in Hin as [_ ->]; vm_compute; reflexivity).
  assert (∀ m, m ∈ ["a"; "b"; "c"; "d"; "e"] → (m, 3) ∈ r) as Hall.
  { intros m Hm.
    assert (m ∈ (sold_lines crowded_db).*1
            ∧ sum_Z (group_values m (sold_lines crowded_db)) = 3) as [Hsold Hq].
    { assert (Forall (λ m, m ∈ (sold_lines crowded_db).*1
                           ∧ sum_Z (group_values m (sold_lines crowded_db)) = 3)
                     ["a"; "b"; "c"; "d"; "e"]) as Hfive
        by (apply (bool_decide_unpack _); vm_compute; exact I).
      by apply (proj1 (list.Forall_forall _ _) Hfive). }
    destruct (decide ((m, 3) ∈ r)) as [|Hout]; [done|exfalso].
    rewrite <- Hq in Hout.
    destruct (topProducts_rows_absent _ _ _ Hr Hsold Hout) as [_ Hbest].
    specialize (Hbest _ _ Hin). lia. }
  assert ([("wax", 2); ("a", 3); ("b", 3); ("c", 3); ("d", 3); ("e", 3)] ⊆+ r) as Hsub.
  { apply NoDup_submseteq.
    - apply (bool_decide_unpack _). vm_compute. exact I.
    - intros x Hx. apply elem_of_cons in Hx as [->|Hx]; [done|].
      change [("a", 3); ("b", 3); ("c", 3); ("d", 3); ("e", 3)]
        with ((λ m : string, (m, 3)) <$> ["a"; "b"; "c"; "d"; "e"]) in Hx.
      apply list_elem_of_fmap in Hx as (m & -> & Hm). by apply Hall. }
  apply submseteq_length in Hsub. destruct Hr as (l & _ & ->).
  rewrite length_take in Hsub. cbn [length] in Hsub. lia.
Qed.

(** C10, amended: the groups of topProducts are product names.  When
    two distinct product rows carry the same name, every answer holds at
    most one entry of that name, never two, and its quantity is the
    quantity sold of the first row plus the quantity sold of the second
    (plus that of any further row of the same name).  The entry is there
    whenever a sale item references a row of that name, unless the answer
    already holds five entries, each of a quantity at least that sum; when
    no sale item references a row of that name there is no entry. *)
Theorem topProducts_merges_same_name db r pid1 pid2 p1 p2 n :
  topProducts_rows db r →
  pid1 ≠ pid2 →
  products db !! pid1 = Some p1 → products db !! pid2 = Some p2 →
  Product.name p1 = n → Product.name p2 = n →
  (length (filter (λ e, e.1 = n) r) ≤ 1)%nat
  ∧ (∀ q, (n, q) ∈ r → q = sold db pid1 + sold db pid2 + sold_as db n [pid1; pid2])
  ∧ (name_sold db n →
       (n, sold db pid1 + sold db pid2 + sold_as db n [pid1; pid2]) ∈ r
       ∨ (length r = 5%nat
          ∧ ∀ n' q', (n', q') ∈ r →
              sold db pid1 + sold db pid2 + sold_as db n [pid1; pid2] ≤ q'))
  ∧ (¬ name_sold db n → n ∉ r.*1).
Proof.
  intros Hr Hne H1 H2 Hn1 Hn2.
  pose proof (sold_lines_merge (products db) (sale_items db) pid1 pid2 p1 p2 n
                Hne H1 H2 Hn1 Hn2) as Hsum.
  change (sum_Z (group_values n (sold_lines db))
          = sold db pid1 + sold db pid2 + sold_as db n [pid1; pid2]) in Hsum.
  pose proof (topProducts_rows_facts db r Hr) as (Hnodup & Hfacts).
  split_and!.
  - by apply NoDup_fst_filter_length.
  - intros q Hq. apply Hfacts in Hq as [_ ->]. done.
  - intros Hsold%sold_lines_elem_of. rewrite <- Hsum.
    destruct (decide ((n, sum_Z (group_values n (sold_lines db))) ∈ r)) as [|Hout];
      [by left|right].
    by apply topProducts_rows_absent.
  - intros Hsold [[n' q] [-> Hin]]%list_elem_of_fmap. apply Hsold.
    apply sold_lines_elem_of. by apply (Hfacts _ q).
Qed.

Lemma topProducts_merges_same_name_witness :
  (length (filter (λ e, e.1 = "wax") (topProducts wax_db)) ≤ 1)%nat
  ∧ (∀ q, ("wax", q) ∈ topProducts wax_db →
          q = sold wax_db 1 + sold wax_db 2 + sold_as wax_db "wax" [1; 2])
  ∧ (name_sold wax_db "wax" →
       ("wax", sold wax_db 1 + sold wax_db 2 + sold_as wax_db "wax" [1; 2])
         ∈ topProducts wax_db
       ∨ (length (topProducts wax_db) = 5%nat
          ∧ ∀ n' q', (n', q') ∈ topProducts wax_db →
              sold wax_db 1 + sold wax_db 2 + sold_as wax_db "wax" [1; 2] ≤ q'))
  ∧ (¬ name_sold wax_db "wax" → "wax" ∉ (topProducts wax_db).*1).
Proof.
  apply (topProducts_merges_same_name wax_db (topProducts wax_db) 1 2
           (sample_product "wax" 10 5 48 5) (sample_product "wax" 10 5 47 5) "wax").
  - exists [("wax", 5); ("cream", 1)]. split; [|vm_compute; reflexivity].
    split; [|repeat constructor; unfold qty_desc; simpl; lia].
    replace (map_to_list (product_totals wax_db))
      with [("wax", 5); ("cream", 1)] by (vm_compute; reflexivity).
    done.
  - lia.
  - vm_compute; reflexivity.
  - vm_compute; reflexivity.
  - reflexivity.
  - reflexivity.
Defined.

Example topProducts_wax : topProducts wax_db = [("wax", 5); ("cream", 1)].
Proof. vm_compute; reflexivity. Qed.
End top_products.

(** ** salesTrend *)

Section sales_trend.
Implicit Types (db : Database) (now d : Z) (t : Qc).

Global Instance day_asc_trans : Transitive day_asc.
Proof. intros a b c. unfold day_asc. lia. Qed.

Global Instance day_asc_total : Total day_asc.
Proof. intros a b. unfold day_asc. lia. Qed.

Lemma group_values_trend_lines now db d :
  group_values d (trend_lines now db)
  = if decide (date now - 14 ≤ d) then Sale.total <$> sales_on db d else [].
Proof.
  unfold trend_lines, sales_on, stamp_ge_date.
  induction (sales db) as [|s l IH]; [by case_decide|].
  rewrite !filter_cons.
  destruct (decide (bool_decide (date now - 14 ≤ date (Sale.createdAt s)) = true)) as [Hw|Hw].
  - apply bool_decide_eq_true in Hw.
    rewrite fmap_cons, group_values_cons, IH. simpl.
    repeat case_decide; simplify_eq; try done; lia.
  - rewrite bool_decide_eq_true in Hw. rewrite IH.
    repeat case_decide; simplify_eq; try done; lia.
Qed.

Lemma salesTrend_elem_of now db d t :
  (d, t) ∈ salesTrend now db ↔ group_by Qcplus (trend_lines now db) !! d = Some t.
Proof. unfold salesTrend. by rewrite merge_sort_Permutation, elem_of_map_to_list. Qed.

(** X1: (day, total) is an entry of salesTrend exactly when the day is
    no more than 14 days before today, at least one sale is stamped on
    it, and total is the sum of Sale.total over the sales of that day.
    A day without sales is absent; the day has no upper bound. *)
Theorem salesTrend_window now db d t :
  (d, t) ∈ salesTrend now db
  ↔ date now - 14 ≤ d ∧ sales_on db d ≠ [] ∧ t = sum_Qc (Sale.total <$> sales_on db d).
Proof.
  rewrite salesTrend_elem_of, (group_by_lookup Qcplus 0%Qc Qcplus_0_r).
  rewrite group_values_trend_lines. case_decide as Hd.
  - destruct (sales_on db d) as [|s l]; simpl; [naive_solver|].
    split; [intros [= <-]; done|]. by intros (_ & _ & ->).
  - naive_solver.
Qed.

(** X2: salesTrend is in ascending order of day and holds at most one
    entry per day. *)
Lemma salesTrend_sorted now db :
  Sorted day_asc (salesTrend now db) ∧ NoDup (salesTrend now db).*1.
Proof.
  split; [apply Sorted_merge_sort, _|].
  unfold salesTrend. rewrite merge_sort_Permutation. apply NoDup_fst_map_to_list.
Qed.

(** C8, as the code has it: on day 20 a sale stamped on day 6, fourteen
    days back, is in the trend, so the window holds the fifteen days 6 to
    20 and not the fourteen days 7 to 20. *)
Theorem salesTrend_reaches_day_14_back :
  date day20 = 20
  ∧ (salesTrend day20 day6_db).*1 = [6].
Proof. split; vm_compute; reflexivity. Qed.
End sales_trend.

(** ** salesReport *)

Section sales_report.
Implicit Types (db : Database) (payload : ReportPayload.t) (r : list ReportRow.t).

Global Instance createdAt_desc_trans : Transitive createdAt_desc.
Proof. intros a b c. unfold createdAt_desc. lia. Qed.

Global Instance createdAt_desc_total : Total createdAt_desc.
Proof. intros a b. unfold createdAt_desc. lia. Qed.

Lemma salesReport_allowed payload db : salesReport_rows payload db (salesReport payload db).
Proof.
  unfold salesReport.
  split; [by rewrite merge_sort_Permutation|]. apply Sorted_merge_sort, _.
Qed.

Lemma report_where_true payload s :
  report_where payload s = true
  ↔ ReportPayload.from payload ≤ date (Sale.createdAt s) ≤ ReportPayload.to payload
    ∧ ∀ u, ReportPayload.userId payload = Some u → u ≠ 0 → Sale.userId s = u.
Proof.
  unfold report_where, truthy.
  rewrite !andb_true_iff, !bool_decide_eq_true.
  destruct (ReportPayload.userId payload) as [u|]; [|naive_solver].
  destruct (decide (u = 0)) as [->|Hu].
  - rewrite bool_decide_eq_false_2 by naive_solver. naive_solver.
  - rewrite bool_decide_eq_true_2 by done. rewrite bool_decide_eq_true. naive_solver.
Qed.

(** C9 fails: userId 0 is a number like any other, and with it the
    report on days 0 to 1 returns the sales of the admin, user 1. *)
Lemma salesReport_userId_0_filters_nothing :
  salesReport_rows (ReportPayload.mk 0 1 (Some 0)) two_days_db
                   (salesReport (ReportPayload.mk 0 1 (Some 0)) two_days_db)
  ∧ ∃ row, row ∈ salesReport (ReportPayload.mk 0 1 (Some 0)) two_days_db
           ∧ ¬ spec_report_where (ReportPayload.mk 0 1 (Some 0)) (ReportRow.sale row).
Proof.
  split; [apply salesReport_allowed|].
  assert (∃ row rest, salesReport (ReportPayload.mk 0 1 (Some 0)) two_days_db = row :: rest
                      ∧ Sale.userId (ReportRow.sale row) = 1) as (row & rest & Hr & Hu).
  { vm_compute. eexists _, _. split; reflexivity. }
  exists row. split; [rewrite Hr; left|].
  intros [_ Hspec]. specialize (Hspec 0 eq_refl). lia.
Qed.

(** C9, amended: every answer of salesReport holds exactly the sales
    whose createdAt date lies in [from, to], restricted to the given
    userId when one other than 0 is given (0 counts as not given), each
    as often as it is in the table and joined with the username of its
    user, in descending order of createdAt; with no sale in the range
    the answer is empty. *)
Theorem salesReport_rows_spec payload db r :
  salesReport_rows payload db r →
  (∀ row, row ∈ r ↔
     ∃ s, s ∈ sales db ∧ row = ReportRow.mk s (User.username <$> users db !! Sale.userId s)
          ∧ ReportPayload.from payload ≤ date (Sale.createdAt s) ≤ ReportPayload.to payload
          ∧ ∀ u, ReportPayload.userId payload = Some u → u ≠ 0 → Sale.userId s = u)
  ∧ ReportRow.sale <$> r ≡ₚ filter (λ s, report_where payload s = true) (sales db)
  ∧ Sorted createdAt_desc r
  ∧ ((∀ s, s ∈ sales db →
        ¬ ReportPayload.from payload ≤ date (Sale.createdAt s) ≤ ReportPayload.to payload) →
     r = []).
Proof.
  intros [Hp Hs].
  assert (∀ row, row ∈ r ↔
     ∃ s, s ∈ sales db ∧ row = ReportRow.mk s (User.username <$> users db !! Sale.userId s)
          ∧ ReportPayload.from payload ≤ date (Sale.createdAt s) ≤ ReportPayload.to payload
          ∧ ∀ u, ReportPayload.userId payload = Some u → u ≠ 0 → Sale.userId s = u) as Hmem.
  { intros row. rewrite <- Hp. unfold report_lines. rewrite list_elem_of_fmap.
    split.
    - intros (s & -> & Hin). apply list_elem_of_filter in Hin as [Hw Hin].
      apply report_where_true in Hw. exists s. by split.
    - intros (s & Hin & -> & Hw). exists s. split; [done|].
      apply list_elem_of_filter. split; [|done]. by apply report_where_true. }
  split; [done|]. split; [|split; [done|]].
  - rewrite <- Hp. unfold report_lines. rewrite <- list_fmap_compose.
    by rewrite list_fmap_id.
  - intros Hnone. destruct r as [|row r]; [done|]. exfalso.
    destruct (proj1 (Hmem row)) as (s & Hin & _ & Hrange & _); [left|].
    by apply (Hnone s).
Qed.

Lemma salesReport_rows_spec_witness :
  Sorted createdAt_desc (salesReport (ReportPayload.mk 0 1 (Some 1)) two_days_db).
Proof.
  apply (salesReport_rows_spec (ReportPayload.mk 0 1 (Some 1)) two_days_db).
  apply salesReport_allowed.
Defined.
End sales_report.

(** ** Integrity of the tables across posts *)

Section integrity.
Implicit Types (db : Database) (payload : SalePayload.t) (items : list SaleItemPayload.t).

Lemma sale_ids_push_sale row db : sale_ids (push_sale row db) = sale_ids db ∪ {[Sale.id row]}.
Proof. unfold sale_ids; simpl. rewrite fmap_app, list_to_set_app_L. set_solver. Qed.

Lemma foreign_keys_hold_push_sale row db :
  foreign_keys_hold db → sale_refs_ok db row → foreign_keys_hold (push_sale row db).
Proof.
  intros [Hs Hi] Hrow. split.
  - simpl. apply Forall_app. split; [done|]. by apply Forall_singleton.
  - simpl. eapply Forall_impl; [exact Hi|]. intros si [H1 H2]. split; [|done].
    rewrite sale_ids_push_sale. set_solver.
Qed.

Lemma rowids_ok_push_sale row db :
  rowids_ok db → Sale.id row = seq_sales db + 1 → rowids_ok (push_sale row db).
Proof.
  intros (Hnd & Hle & Hnd' & Hle') Hid. unfold rowids_ok; simpl.
  split; [|split; [|done]].
  - rewrite fmap_app. apply NoDup_app. split; [done|]. split; [|apply NoDup_singleton].
    intros x Hx Hx'. apply list_elem_of_singleton in Hx'. subst x.
    apply list_elem_of_fmap in Hx as (s & Hs & Hin).
    rewrite Forall_forall in Hle. specialize (Hle s Hin). lia.
  - apply Forall_app. split; [|apply Forall_singleton; lia].
    eapply Forall_impl; [exact Hle|]. intros s Hs. simpl in Hs. lia.
Qed.

Lemma foreign_keys_hold_post_line saleId db item :
  foreign_keys_hold db → saleId ∈ sale_ids db →
  SaleItemPayload.id item ∈ dom (products db) →
  foreign_keys_hold (post_line saleId db item).
Proof.
  intros [Hs Hi] Hsale Hprod. split; [done|].
  assert (∀ si, item_refs_ok db si → item_refs_ok (post_line saleId db item) si) as Hmono.
  { intros si [H1 H2]. split; [done|]. by rewrite dom_products_post_line. }
  simpl. apply Forall_app. split; [by eapply Forall_impl|].
  apply Forall_singleton, Hmono. by split.
Qed.

Lemma rowids_ok_post_line saleId db item : rowids_ok db → rowids_ok (post_line saleId db item).
Proof.
  intros (Hnd & Hle & Hnd' & Hle'). unfold rowids_ok; simpl.
  split; [done|]. split; [done|]. split.
  - rewrite fmap_app. apply NoDup_app. split; [done|]. split; [|apply NoDup_singleton].
    intros x Hx Hx'. apply list_elem_of_singleton in Hx'. subst x.
    apply list_elem_of_fmap in Hx as (si & Hsi & Hin).
    rewrite Forall_forall in Hle'. specialize (Hle' si Hin). simpl in Hsi. lia.
  - apply Forall_app. split; [|apply Forall_singleton; simpl; lia].
    eapply Forall_impl; [exact Hle'|]. intros si Hsi. simpl in *. lia.
Qed.

Lemma integrity_post_lines saleId items db :
  saleId ∈ sale_ids db → lines_ok items db = true →
  foreign_keys_hold db → rowids_ok db →
  foreign_keys_hold (post_lines saleId items db) ∧ rowids_ok (post_lines saleId items db).
Proof.
  revert db. induction items as [|item items IH]; intros db Hsale Hl Hfk Hrow; [done|].
  simpl in Hl. apply andb_true_iff in Hl as [Hi Hl]. apply bool_decide_eq_true in Hi.
  unfold post_lines in *. simpl. apply IH.
  - by rewrite sale_ids_post_line.
  - unfold lines_ok. by rewrite dom_products_post_line.
  - by apply foreign_keys_hold_post_line.
  - by apply rowids_ok_post_line.
Qed.

Lemma header_ok_refs now payload db :
  header_ok payload db = true → sale_refs_ok db (sale_row now payload db).
Proof.
  unfold header_ok, sale_refs_ok. intros [H1 H2]%andb_true_iff.
  split; [done|]. simpl in H2. by apply bool_decide_eq_true in H2.
Qed.

(* the database a call leaves, by the three ways it can go *)
Lemma createSale_database now payload db :
  (createSale now payload db).2
  = if header_ok payload db
    then if lines_ok (SalePayload.items payload) db
         then post_lines (seq_sales db + 1) (SalePayload.items payload)
                         (push_sale (sale_row now payload db) db)
         else push_sale (sale_row now payload db) db
    else db.
Proof.
  destruct (header_ok payload db) eqn:Hh;
    [|by rewrite createSale_header_throw].
  destruct (lines_ok (SalePayload.items payload) db) eqn:Hl.
  - by rewrite createSale_ok.
  - by rewrite createSale_lines_throw.
Qed.

Lemma createSale_step_integrity now payload db :
  foreign_keys_hold db → rowids_ok db →
  foreign_keys_hold (createSale now payload db).2 ∧ rowids_ok (createSale now payload db).2.
Proof.
  intros Hfk Hrow. rewrite createSale_database.
  destruct (header_ok payload db) eqn:Hh; [|done].
  assert (foreign_keys_hold (push_sale (sale_row now payload db) db)) as Hfk'
    by (apply foreign_keys_hold_push_sale; [done|by apply header_ok_refs]).
  assert (rowids_ok (push_sale (sale_row now payload db) db)) as Hrow'
    by by apply rowids_ok_push_sale.
  destruct (lines_ok (SalePayload.items payload) db) eqn:Hl; [|done].
  apply integrity_post_lines; [|done..].
  apply (sale_id_pushed (sale_row now payload db)).
Qed.

(** X4: posting keeps the integrity of the tables however each call
    ends.  When every sale references an existing user (and customer),
    every sale item an existing sale and product, and rowids are distinct
    and within the recorded sequence, the same holds after any sequence
    of createSale calls, whether a call returns, fails on the header or
    fails in the commit. *)
Theorem createSale_keeps_integrity calls db :
  foreign_keys_hold db → rowids_ok db →
  foreign_keys_hold (after_posts calls db) ∧ rowids_ok (after_posts calls db).
Proof.
  revert db. induction calls as [|call calls IH]; intros db Hfk Hrow; [done|].
  unfold after_posts in *. simpl.
  destruct (createSale_step_integrity call.1 call.2 db Hfk Hrow) as [Hfk' Hrow'].
  by apply IH.
Qed.

Lemma createSale_keeps_integrity_witness :
  foreign_keys_hold
    (after_posts [(1000, cart [haircut 1] 0 50); (2000, cart [haircut 1; ghost 1] 0 100);
                  (3000, cart [beard_kit 2] 0 120)] seed_db)
  ∧ rowids_ok
      (after_posts [(1000, cart [haircut 1] 0 50); (2000, cart [haircut 1; ghost 1] 0 100);
                    (3000, cart [beard_kit 2] 0 120)] seed_db).
Proof.
  apply (createSale_keeps_integrity
           [(1000, cart [haircut 1] 0 50); (2000, cart [haircut 1; ghost 1] 0 100);
            (3000, cart [beard_kit 2] 0 120)] seed_db).
  - split; simpl; constructor.
  - repeat split; simpl; constructor.
Defined.

Lemma elem_of_sale_ids db sid : sid ∈ sale_ids db ↔ sid ∈ Sale.id <$> sales db.
Proof. unfold sale_ids. by rewrite elem_of_list_to_set. Qed.

Lemma filter_none {A} (P : A → Prop) `{∀ x, Decision (P x)} (l : list A) :
  Forall (λ x, ¬ P x) l → filter P l = [].
Proof.
  induction 1 as [|x l Hx _ IH]; [done|].
  by rewrite filter_cons, decide_False.
Qed.

Lemma filter_item_rows_same saleId seq items :
  filter (λ si, SaleItem.saleId si = saleId) (item_rows saleId seq items)
  = item_rows saleId seq items.
Proof.
  revert seq. induction items as [|item items IH]; intros seq; [done|].
  simpl. rewrite filter_cons, decide_True by done. by rewrite IH.
Qed.

Lemma filter_item_rows_other saleId sid seq items :
  sid ≠ saleId → filter (λ si, SaleItem.saleId si = sid) (item_rows saleId seq items) = [].
Proof.
  intros Hne. revert seq. induction items as [|item items IH]; intros seq; [done|].
  simpl. rewrite filter_cons, decide_False by done. by rewrite IH.
Qed.

Lemma item_columns_item_rows saleId seq items :
  item_columns <$> item_rows saleId seq items = line_columns <$> items.
Proof.
  revert seq. induction items as [|item items IH]; intros seq; [done|].
  simpl. by rewrite IH.
Qed.

(** X5: the id a successful post returns is the id of no earlier sale,
    and reading the sale's items back gives exactly the lines of the
    cart, in cart order, each with the product, quantity and price of its
    line; the items of every other sale are untouched. *)
Theorem createSale_lines_read_back now payload db r db' :
  foreign_keys_hold db → rowids_ok db →
  createSale now payload db = (Return r, db') →
  (SaleResult.saleId r ∉ Sale.id <$> sales db)
  ∧ (item_columns <$> items_of_sale db' (SaleResult.saleId r))
    = (line_columns <$> SalePayload.items payload)
  ∧ ∀ sid, sid ≠ SaleResult.saleId r → items_of_sale db' sid = items_of_sale db sid.
Proof.
  intros [_ Hitems] (_ & Hle & _ & _) H.
  apply createSale_Return_inv in H as (_ & _ & -> & ->).
  assert (seq_sales db + 1 ∉ Sale.id <$> sales db) as Hfresh.
  { intros (s & Hs & Hin)%list_elem_of_fmap.
    rewrite Forall_forall in Hle. specialize (Hle s Hin). lia. }
  unfold items_of_sale. rewrite sale_items_post_lines. simpl.
  split; [done|]. split.
  - rewrite filter_app, filter_item_rows_same.
    rewrite filter_none; [by rewrite app_nil_l, item_columns_item_rows|].
    eapply Forall_impl; [exact Hitems|]. intros si [Hsi _] Heq.
    apply elem_of_sale_ids in Hsi. by rewrite Heq in Hsi.
  - intros sid Hne. by rewrite filter_app, filter_item_rows_other, app_nil_r.
Qed.
Lemma createSale_lines_read_back_witness :
  item_columns <$> items_of_sale (createSale 1000 (cart [haircut 2; beard_kit 1] 0 200) seed_db).2 1
  = line_columns <$> [haircut 2; beard_kit 1].
Proof.
  destruct (createSale_lines_read_back 1000 (cart [haircut 2; beard_kit 1] 0 200) seed_db
              (sale_result (cart [haircut 2; beard_kit 1] 0 200) seed_db)
              (createSale 1000 (cart [haircut 2; beard_kit 1] 0 200) seed_db).2
              ltac:(split; simpl; constructor)
              ltac:(repeat split; simpl; constructor)
              ltac:(vm_compute; reflexivity)) as (_ & Hread & _).
  exact Hread.
Defined.

Lemma same_but_quantity_decrement q p : same_but_quantity p (decrement q p).
Proof. unfold same_but_quantity. by split_and!. Qed.

Lemma same_but_quantity_refl p : same_but_quantity p p.
Proof. unfold same_but_quantity. by split_and!. Qed.

(** X6: createSale only appends to the ledger, however the call ends: the
    sales and the sale items that were recorded before are still there,
    unchanged and in place, users and customers are as they were, no
    product row appears or disappears, and of a product row nothing but
    the quantity can differ. *)
Theorem createSale_appends_only now payload db :
  sales db `prefix_of` sales (createSale now payload db).2
  ∧ sale_items db `prefix_of` sale_items (createSale now payload db).2
  ∧ users (createSale now payload db).2 = users db
  ∧ customers (createSale now payload db).2 = customers db
  ∧ dom (products (createSale now payload db).2) = dom (products db)
  ∧ ∀ pid p p', products db !! pid = Some p →
                products (createSale now payload db).2 !! pid = Some p' →
                same_but_quantity p p'.
Proof.
  rewrite createSale_database.
  destruct (header_ok payload db) eqn:Hh;
    [|split_and!; try done; intros pid p p' Hp Hp'; simplify_eq;
      apply same_but_quantity_refl].
  destruct (lines_ok (SalePayload.items payload) db) eqn:Hl.
  - rewrite sales_post_lines, sale_items_post_lines, users_post_lines,
      customers_post_lines, dom_products_post_lines. simpl.
    split_and!; try done; [by eexists|by eexists|].
    intros pid p p' Hp Hp'. rewrite products_post_lines in Hp'. simpl in Hp'.
    rewrite Hp in Hp'. injection Hp' as <-. apply same_but_quantity_decrement.
  - simpl. split_and!; try done; [by eexists|].
    intros pid p p' Hp Hp'. simplify_eq. apply same_but_quantity_refl.
Qed.
End integrity.

(** ** The dashboard's totals *)

Section dashboard_totals.
Implicit Types (db : Database) (payload : SalePayload.t) (now t : Z).

Lemma sum_Qc_app (l k : list Qc) : sum_Qc (l ++ k) = (sum_Qc l + sum_Qc k)%Qc.
Proof.
  unfold sum_Qc. induction l as [|x l IH]; simpl; [ring|]. rewrite IH. ring.
Qed.

Lemma sales_after_createSale now payload db :
  sales (createSale now payload db).2
  = if header_ok payload db then sales db ++ [sale_row now payload db] else sales db.
Proof.
  rewrite createSale_database. destruct (header_ok payload db); [|done].
  destruct (lines_ok (SalePayload.items payload) db); [|done].
  by rewrite sales_post_lines.
Qed.

(** X7: whenever the insert of the header passes, whether the commit of
    the lines then succeeds or fails, the post stamped now raises the
    dashboard's count of the orders of that day by one and the total of
    that day by the total computed for the sale, and leaves the figures of
    every other day as they were. *)
Theorem today_after_createSale now payload db t :
  header_ok payload db = true →
  (date t = date now →
     Totals.orders (today t (createSale now payload db).2) = Totals.orders (today t db) + 1
     ∧ Totals.total (today t (createSale now payload db).2)
       = (Totals.total (today t db) + SaleResult.total (sale_result payload db))%Qc)
  ∧ (date t ≠ date now → today t (createSale now payload db).2 = today t db).
Proof.
  intros Hh. unfold today. rewrite sales_after_createSale, Hh.
  rewrite filter_app, filter_cons, filter_nil. simpl.
  split; intros Hd.
  - rewrite decide_True by done.
    rewrite length_app, fmap_app, sum_Qc_app. simpl. split; [lia|].
    unfold sum_Qc; simpl. ring.
  - rewrite decide_False by done. by rewrite app_nil_r.
Qed.

Lemma today_after_createSale_witness :
  Totals.orders (today 5000 (createSale 1000 (cart [haircut 1; ghost 1] 0 100) seed_db).2)
  = Totals.orders (today 5000 seed_db) + 1
  ∧ Totals.total (today 5000 (createSale 1000 (cart [haircut 1; ghost 1] 0 100) seed_db).2)
    = (Totals.total (today 5000 seed_db)
       + SaleResult.total (sale_result (cart [haircut 1; ghost 1] 0 100) seed_db))%Qc.
Proof.
  destruct (today_after_createSale 1000 (cart [haircut 1; ghost 1] 0 100) seed_db 5000
              ltac:(vm_compute; reflexivity)) as [Hsame _].
  apply Hsame. vm_compute; reflexivity.
Defined.
(** X8: the trend and the figure of today agree: the trend has an entry
    for today exactly when today has at least one order, and the total
    of that entry is the total shown for today. *)
Theorem salesTrend_today_entry now db (amount : Qc) :
  (date now, amount) ∈ salesTrend now db
  ↔ Totals.orders (today now db) ≠ 0 ∧ amount = Totals.total (today now db).
Proof.
  rewrite salesTrend_elem_of, (group_by_lookup Qcplus 0%Qc Qcplus_0_r).
  rewrite group_values_trend_lines, decide_True by lia.
  unfold today, sales_on. simpl.
  destruct (filter _ (sales db)) as [|s l]; simpl; [naive_solver|].
  split; [intros [= <-]; split; [lia|done]|]. by intros [_ ->].
Qed.

Lemma sum_Qc_nonneg (l : list Qc) : Forall (λ x, (0 ≤ x)%Qc) l → (0 ≤ sum_Qc l)%Qc.
Proof.
  induction 1 as [|x l Hx _ IH]; [done|]. unfold sum_Qc in *; simpl.
  by apply Qcplus_nonneg_nonneg.
Qed.

Lemma filter_within {A} (P Q : A → Prop) `{∀ x, Decision (P x)} `{∀ x, Decision (Q x)}
    (f : A → Qc) (l : list A) :
  (∀ x, P x → Q x) →
  (length (filter P l) ≤ length (filter Q l))%nat
  ∧ (Forall (λ x, (0 ≤ f x)%Qc) l → (sum_Qc (f <$> filter P l) ≤ sum_Qc (f <$> filter Q l))%Qc).
Proof.
  intros HPQ. induction l as [|x l [IHlen IHsum]]; [done|].
  rewrite !filter_cons. destruct (decide (P x)) as [HP|HP].
  - rewrite decide_True by auto. simpl. split; [lia|].
    intros [Hx Hl]%Forall_cons. unfold sum_Qc in *; simpl.
    apply Qcplus_le_mono_l. auto.
  - destruct (decide (Q x)) as [HQ|HQ]; simpl; [|by split; [|intros [_ ?]%Forall_cons; auto]].
    split; [lia|]. intros [Hx Hl]%Forall_cons. unfold sum_Qc in *; simpl.
    etrans; [by apply IHsum|].
    rewrite <- (Qcplus_0_l (foldr Qcplus 0%Qc (f <$> filter Q l))) at 1.
    by apply Qcplus_le_mono_r.
Qed.

(** X9: whatever the calendar, the sales of today are sales of the
    month: the month counts at least the orders of today, and when no
    recorded total is negative the total of the month is at least the
    total of today. *)
Theorem today_within_month year_month now db :
  Totals.orders (today now db) ≤ Totals.orders (month year_month now db)
  ∧ (Forall (λ s, (0 ≤ Sale.total s)%Qc) (sales db) →
     (Totals.total (today now db) ≤ Totals.total (month year_month now db))%Qc).
Proof.
  unfold today, month. simpl.
  destruct (filter_within (λ s, date (Sale.createdAt s) = date now)
              (λ s, year_month (date (Sale.createdAt s)) = year_month (date now))
              Sale.total (sales db)) as [Hlen Hsum]; [by intros s ->|].
  split; [lia|done].
Qed.
End dashboard_totals.

(** ** The report and the totals under it *)

Section report_totals.
Implicit Types (db : Database) (payload : ReportPayload.t) (r : list ReportRow.t).

(** X10: when the foreign keys hold, every row of every answer of
    salesReport carries a username, the one of the user who posted the
    sale: the LEFT JOIN never yields NULL. *)
Theorem salesReport_rows_username payload db r :
  foreign_keys_hold db →
  salesReport_rows payload db r →
  Forall (λ row, ∃ u, users db !! Sale.userId (ReportRow.sale row) = Some u
                      ∧ ReportRow.username row = Some (User.username u)) r.
Proof.
  intros [Hsales _] [Hp _]. rewrite <- Hp. unfold report_lines.
  apply Forall_fmap, list.Forall_forall. intros s [_ Hin]%list_elem_of_filter.
  rewrite list.Forall_forall in Hsales. destruct (Hsales s Hin) as [_ Hu].
  apply elem_of_dom in Hu as [u Hu]. exists u. simpl. by rewrite Hu.
Qed.

Lemma salesReport_rows_username_witness :
  Forall (λ row, ∃ u, users two_days_db !! Sale.userId (ReportRow.sale row) = Some u
                      ∧ ReportRow.username row = Some (User.username u))
         (salesReport (ReportPayload.mk 0 1 None) two_days_db).
Proof.
  apply (salesReport_rows_username (ReportPayload.mk 0 1 None) two_days_db).
  - split; simpl; repeat constructor; vm_compute; reflexivity.
  - apply salesReport_allowed.
Defined.

Lemma totals_fold r (acc : ReportTotals.t) :
  fold_left (λ acc row,
      ReportTotals.mk (ReportTotals.total acc + Sale.total (ReportRow.sale row))%Qc
                      (ReportTotals.tax acc + Sale.tax (ReportRow.sale row))%Qc
                      (ReportTotals.count acc + 1)) r acc
  = ReportTotals.mk
      (ReportTotals.total acc + sum_Qc ((λ row, Sale.total (ReportRow.sale row)) <$> r))%Qc
      (ReportTotals.tax acc + sum_Qc ((λ row, Sale.tax (ReportRow.sale row)) <$> r))%Qc
      (ReportTotals.count acc + Z.of_nat (length r)).
Proof.
  revert acc. induction r as [|row r IH]; intros [t x c].
  - unfold sum_Qc; simpl. f_equal; (ring || lia).
  - cbn [fold_left]. rewrite IH.
    cbn [ReportTotals.total ReportTotals.tax ReportTotals.count].
    rewrite !fmap_cons. unfold sum_Qc. cbn [foldr length].
    f_equal; [ring|ring|lia].
Qed.

Lemma sum_Qc_Permutation (l k : list Qc) : l ≡ₚ k → sum_Qc l = sum_Qc k.
Proof.
  unfold sum_Qc. induction 1 as [|x l k _ IH|x y l|l k m _ IH1 _ IH2]; simpl.
  - done.
  - by rewrite IH.
  - ring.
  - by rewrite IH1.
Qed.

(** X11: the totals the report page shows under a date range do not
    depend on the order in which the rows arrive: for every answer of
    salesReport, the count is the number of sales that match the range
    (and the user), and total and tax are the sums of their totals and
    taxes. *)
Theorem totals_of_salesReport payload db r :
  salesReport_rows payload db r →
  ReportTotals.count (totals r)
  = Z.of_nat (length (filter (λ s, report_where payload s = true) (sales db)))
  ∧ ReportTotals.total (totals r)
    = sum_Qc (Sale.total <$> filter (λ s, report_where payload s = true) (sales db))
  ∧ ReportTotals.tax (totals r)
    = sum_Qc (Sale.tax <$> filter (λ s, report_where payload s = true) (sales db)).
Proof.
  intros [Hp _]. unfold totals. rewrite totals_fold. simpl.
  assert (ReportRow.sale <$> r ≡ₚ filter (λ s, report_where payload s = true) (sales db)) as Hs.
  { rewrite <- Hp. unfold report_lines. rewrite <- list_fmap_compose. by rewrite list_fmap_id. }
  split; [|split].
  - rewrite <- Hs, length_fmap. lia.
  - rewrite Qcplus_0_l. rewrite <- (sum_Qc_Permutation _ _ (fmap_Permutation Sale.total _ _ Hs)).
    by rewrite <- list_fmap_compose.
  - rewrite Qcplus_0_l. rewrite <- (sum_Qc_Permutation _ _ (fmap_Permutation Sale.tax _ _ Hs)).
    by rewrite <- list_fmap_compose.
Qed.

Lemma totals_of_salesReport_witness :
  ReportTotals.count (totals (salesReport (ReportPayload.mk 0 1 None) two_days_db))
  = Z.of_nat (length (filter (λ s, report_where (ReportPayload.mk 0 1 None) s = true)
                             (sales two_days_db))).
Proof.
  apply (totals_of_salesReport (ReportPayload.mk 0 1 None) two_days_db).
  apply salesReport_allowed.
Defined.
End report_totals.

(** ** searchProducts *)

Section search_products.
Context (like : string → string → bool).
Implicit Types (db : Database) (query : option string) (r : list ProductRow).

Global Instance name_asc_total : Total name_asc.
Proof. intros a b. unfold name_asc. apply String.leb_total. Qed.

Lemma Sorted_take {A} (R : relation A) (l : list A) n : Sorted R l → Sorted R (take n l).
Proof.
  intros Hs. revert n. induction Hs as [|x l Hs IH Hhd]; intros [|n]; simpl; try constructor.
  - apply IH.
  - destruct Hhd as [|y l Hxy]; destruct n; simpl; by constructor.
Qed.

Lemma searchProducts_allowed query db :
  searchProducts_rows like query db (searchProducts like query db).
Proof.
  exists (merge_sort name_asc (search_lines like query db)). split; [|done].
  split; [by rewrite merge_sort_Permutation|]. apply Sorted_merge_sort, _.
Qed.

Lemma search_lines_elem_of query db row :
  row ∈ search_lines like query db
  ↔ products db !! row.1 = Some row.2
    ∧ (truthy_string query = true → search_where like (default "" query) row = true).
Proof.
  unfold search_lines. destruct row as [id p]. simpl.
  destruct (truthy_string query).
  - rewrite list_elem_of_filter, elem_of_map_to_list. naive_solver.
  - rewrite elem_of_map_to_list. naive_solver.
Qed.

Lemma NoDup_fst_filter {A B} (P : A * B → Prop) `{∀ x, Decision (P x)} (l : list (A * B)) :
  NoDup l.*1 → NoDup (filter P l).*1.
Proof.
  induction l as [|x l IH]; [done|]. rewrite fmap_cons, NoDup_cons. intros [Hx Hl].
  rewrite filter_cons. case_decide; [|by apply IH].
  rewrite fmap_cons, NoDup_cons. split; [|by apply IH].
  intros (y & Hy & Hin)%list_elem_of_fmap. apply Hx, list_elem_of_fmap.
  exists y. split; [done|]. by apply list_elem_of_filter in Hin as [_ ?].
Qed.

Lemma search_lines_NoDup query db : NoDup (search_lines like query db).*1.
Proof.
  unfold search_lines. destruct (truthy_string query); [|apply NoDup_fst_map_to_list].
  apply NoDup_fst_filter, NoDup_fst_map_to_list.
Qed.

(** X12: every answer of searchProducts holds at most 25 rows, each a
    row of the products table under its own id (and, when a query is
    given, one whose name or barcode matches it), no product twice, in
    ascending order of name.  Without a query the answer holds min(25,
    number of products) rows: all of them when the table has at most 25,
    and otherwise some product is left out. *)
Theorem searchProducts_rows_bounded query db r :
  searchProducts_rows like query db r →
  (length r ≤ 25)%nat
  ∧ NoDup r.*1
  ∧ Sorted name_asc r
  ∧ (∀ row, row ∈ r →
       products db !! row.1 = Some row.2
       ∧ (truthy_string query = true → search_where like (default "" query) row = true))
  ∧ (truthy_string query = false →
       length r = (25 `min` size (products db))%nat
       ∧ ((size (products db) ≤ 25)%nat →
          ∀ id p, products db !! id = Some p → (id, p) ∈ r)
       ∧ ((25 < size (products db))%nat →
          ∃ id p, products db !! id = Some p ∧ (id, p) ∉ r)).
Proof.
  intros (l & [Hp Hs] & ->). split_and!.
  - rewrite length_take. lia.
  - rewrite fmap_take. eapply sublist_NoDup; [|apply sublist_take].
    rewrite <- Hp. apply search_lines_NoDup.
  - by apply Sorted_take.
  - intros row Hin. apply search_lines_elem_of. rewrite Hp. by apply (subseteq_take 25).
  - intros Hq.
    assert (l ≡ₚ map_to_list (products db)) as Hl
      by (rewrite <- Hp; unfold search_lines; by rewrite Hq).
    assert (length l = size (products db)) as Hlen
      by (rewrite (Permutation_length Hl); apply length_map_to_list).
    split_and!.
    + by rewrite length_take, Hlen.
    + intros Hsmall id p Hlook. rewrite take_ge by lia.
      rewrite Hl. by apply elem_of_map_to_list.
    + intros Hbig.
      destruct (drop 25 l) as [|[id p] rest] eqn:Hdrop.
      { apply (f_equal length) in Hdrop. rewrite length_drop in Hdrop. simpl in Hdrop. lia. }
      exists id, p.
      assert (NoDup l) as Hnd by (rewrite Hl; apply NoDup_map_to_list).
      rewrite <- (take_drop 25 l), Hdrop in Hnd.
      apply NoDup_app in Hnd as (_ & Hdisj & _).
      split.
      * apply elem_of_map_to_list. rewrite <- Hl, <- (take_drop 25 l), Hdrop.
        apply elem_of_app. right. left.
      * intros Hin. apply (Hdisj _ Hin). left.
Qed.

End search_products.

Lemma searchProducts_rows_bounded_witness :
  (length (searchProducts (λ _ _, true) None seed_db) ≤ 25)%nat
  ∧ NoDup (searchProducts (λ _ _, true) None seed_db).*1
  ∧ Sorted name_asc (searchProducts (λ _ _, true) None seed_db).
Proof.
  destruct (searchProducts_rows_bounded (λ _ _, true) None seed_db
              (searchProducts (λ _ _, true) None seed_db)
              (searchProducts_allowed (λ _ _, true) None seed_db))
    as (H1 & H2 & H3 & _).
  by split_and!.
Defined.

(** ** The cart of the POS page *)

Section pos_cart.
Implicit Types (cart : list SaleItemPayload.t) (item : SaleItemPayload.t)
  (product : ProductRow) (page : POSPage.t) (db : Database).

Lemma fmap_id_keeps (f : SaleItemPayload.t → SaleItemPayload.t) cart :
  (∀ item, SaleItemPayload.id (f item) = SaleItemPayload.id item) →
  SaleItemPayload.id <$> (f <$> cart) = SaleItemPayload.id <$> cart.
Proof. intros Hf. rewrite <- list_fmap_compose. apply list_fmap_ext. intros _ item _. apply Hf. Qed.

Lemma updateQuantity_ids id q cart :
  SaleItemPayload.id <$> updateQuantity id q cart = SaleItemPayload.id <$> cart.
Proof. apply fmap_id_keeps. intros item. by case_decide. Qed.

Lemma addToCart_ids product cart :
  SaleItemPayload.id <$> addToCart product cart
  = if decide (product.1 ∈ SaleItemPayload.id <$> cart)
    then SaleItemPayload.id <$> cart
    else (SaleItemPayload.id <$> cart) ++ [product.1].
Proof.
  unfold addToCart.
  destruct (list_find _ cart) as [[i found]|] eqn:Hfind.
  - apply list_find_Some in Hfind as (Hi & Hid & _).
    rewrite decide_True.
    + apply fmap_id_keeps. intros item. by case_decide.
    + apply list_elem_of_fmap. exists found. split; [done|].
      by apply list_elem_of_lookup_2 in Hi.
  - apply list_find_None in Hfind. rewrite decide_False; [by rewrite fmap_app|].
    intros (item & Hid & Hin)%list_elem_of_fmap.
    rewrite Forall_forall in Hfind. by apply (Hfind item Hin).
Qed.

Lemma addToCart_NoDup product cart :
  NoDup (SaleItemPayload.id <$> cart) → NoDup (SaleItemPayload.id <$> addToCart product cart).
Proof.
  intros Hnd. rewrite addToCart_ids. case_decide as Hin; [done|].
  apply NoDup_app. split; [done|]. split; [|apply NoDup_singleton].
  intros x Hx Hx'. apply list_elem_of_singleton in Hx'. by subst x.
Qed.

Lemma addToCart_lines page product cart :
  product ∈ POSPage.products page →
  Forall (cart_line_ok page) cart → Forall (cart_line_ok page) (addToCart product cart).
Proof.
  intros Hp Hc. unfold addToCart. destruct (list_find _ cart) as [[i found]|].
  - apply Forall_fmap. eapply Forall_impl; [exact Hc|].
    intros item [Hq Hprov]. simpl. case_decide; [|by split].
    split; [simpl; lia|done].
  - apply Forall_app. split; [done|]. apply Forall_singleton.
    split; [simpl; lia|]. by exists product.
Qed.

Lemma updateQuantity_lines page id q cart :
  1 ≤ q →
  Forall (cart_line_ok page) cart → Forall (cart_line_ok page) (updateQuantity id q cart).
Proof.
  intros Hq Hc. apply Forall_fmap. eapply Forall_impl; [exact Hc|].
  intros item [Hq' Hprov]. simpl. case_decide; by split.
Qed.

Lemma removeFromCart_NoDup id cart :
  NoDup (SaleItemPayload.id <$> cart) → NoDup (SaleItemPayload.id <$> removeFromCart id cart).
Proof.
  intros Hnd. eapply sublist_NoDup; [exact Hnd|].
  unfold removeFromCart. induction cart as [|item cart IH]; [done|].
  apply NoDup_cons in Hnd as [_ Hnd]. rewrite filter_cons. case_decide.
  - rewrite !fmap_cons. apply sublist_skip. by apply IH.
  - rewrite fmap_cons. apply sublist_cons. by apply IH.
Qed.

(* with distinct ids, what a cart posts for the product of a line is the
   quantity of that line *)
Lemma posted_NoDup cart item :
  NoDup (SaleItemPayload.id <$> cart) → item ∈ cart →
  posted cart (SaleItemPayload.id item) = SaleItemPayload.quantity item.
Proof.
  induction cart as [|x cart IH]; intros Hnd Hin; [by apply elem_of_nil in Hin|].
  rewrite fmap_cons in Hnd. apply NoDup_cons in Hnd as [Hx Hnd].
  rewrite posted_cons. apply elem_of_cons in Hin as [->|Hin].
  - rewrite decide_True by done. rewrite posted_unreferenced by done. lia.
  - rewrite decide_False; [rewrite IH by done; lia|].
    intros Heq. apply Hx. rewrite Heq. by apply list_elem_of_fmap_2.
Qed.

Lemma posted_fmap_other (f : SaleItemPayload.t → SaleItemPayload.t) cart pid :
  (∀ item, SaleItemPayload.id (f item) = SaleItemPayload.id item) →
  (∀ item, SaleItemPayload.id item = pid →
           SaleItemPayload.quantity (f item) = SaleItemPayload.quantity item) →
  posted (f <$> cart) pid = posted cart pid.
Proof.
  intros Hid Hq. induction cart as [|x cart IH]; [done|].
  rewrite fmap_cons, !posted_cons, IH, Hid.
  case_decide; [by rewrite Hq|done].
Qed.

(** X13: a click on a product puts exactly one more unit of it into the
    cart and nothing else: in a cart with distinct product ids, the
    quantity the cart holds of the clicked product goes up by one, that
    of every other product stays, and the cart gets one line longer
    exactly when the product was not in it yet. *)
Theorem addToCart_one_more product cart :
  NoDup (SaleItemPayload.id <$> cart) →
  posted (addToCart product cart) product.1 = posted cart product.1 + 1
  ∧ (∀ pid, pid ≠ product.1 → posted (addToCart product cart) pid = posted cart pid)
  ∧ length (addToCart product cart)
    = if decide (product.1 ∈ SaleItemPayload.id <$> cart)
      then length cart else S (length cart).
Proof.
  intros Hnd. split_and!.
  - unfold addToCart.
    destruct (list_find _ cart) as [[i found]|] eqn:Hfind.
    + apply list_find_Some in Hfind as (Hi & Hid & _).
      apply list_elem_of_lookup_2 in Hi. rewrite <- Hid.
      assert (NoDup (SaleItemPayload.id
                <$> ((λ item, if decide (SaleItemPayload.id item = SaleItemPayload.id found)
                              then with_quantity (SaleItemPayload.quantity item + 1) item
                              else item) <$> cart))) as Hnd'
        by (rewrite fmap_id_keeps; [done|intros item; by case_decide]).
      rewrite (posted_NoDup cart found Hnd Hi).
      apply (posted_NoDup _ (with_quantity (SaleItemPayload.quantity found + 1) found) Hnd').
      apply list_elem_of_fmap. exists found. by rewrite decide_True.
    + apply list_find_None in Hfind.
      unfold posted. rewrite filter_app, fmap_app, filter_cons, decide_True by done.
      unfold sum_Z. rewrite foldr_app. simpl.
      rewrite (filter_none _ cart) by done. simpl. lia.
  - intros pid Hne. unfold addToCart.
    destruct (list_find _ cart) as [[i found]|].
    + apply posted_fmap_other; intros item; case_decide; try done. congruence.
    + unfold posted. rewrite filter_app, filter_cons, decide_False by (simpl; congruence).
      by rewrite filter_nil, app_nil_r.
  - rewrite <- (length_fmap SaleItemPayload.id (addToCart product cart)), addToCart_ids.
    case_decide; rewrite ?length_app, length_fmap; simpl; lia.
Qed.

Lemma addToCart_one_more_witness :
  posted (addToCart (1, sample_product "haircut" 35 10 20 5) [beard_kit 1; haircut 2]) 1
  = posted [beard_kit 1; haircut 2] 1 + 1.
Proof.
  apply (addToCart_one_more (1, sample_product "haircut" 35 10 20 5) [beard_kit 1; haircut 2]).
  vm_compute. repeat constructor; set_solver.
Defined.
End pos_cart.

(** ** The POS page, from mount to checkout *)

Section pos_page.
Context (like : string → string → bool).
Implicit Types (page : POSPage.t) (db : Database) (user : option AuthUser.t)
  (settings : option Settings.t).

Lemma createSale_frame now payload db :
  users (createSale now payload db).2 = users db
  ∧ customers (createSale now payload db).2 = customers db
  ∧ dom (products (createSale now payload db).2) = dom (products db).
Proof.
  rewrite createSale_database. destruct (header_ok payload db); [|done].
  destruct (lines_ok (SalePayload.items payload) db); [|done].
  by rewrite users_post_lines, customers_post_lines, dom_products_post_lines.
Qed.

Lemma searchProducts_rows_loaded query db r :
  searchProducts_rows like query db r →
  (length r ≤ 25)%nat ∧ Forall (λ product, product.1 ∈ dom (products db)) r.
Proof.
  intros (l & [Hp _] & ->). split; [rewrite length_take; lia|].
  apply list.Forall_forall. intros row Hin.
  apply (subseteq_take 25) in Hin. rewrite <- Hp in Hin.
  apply search_lines_elem_of in Hin as [Hlook _]. by apply elem_of_dom.
Qed.

Lemma pos_mounted_invariant db page : pos_mounted like db page → pos_invariant page db.
Proof.
  intros (Hload & Hcart & _). apply searchProducts_rows_loaded in Hload as [Hlen Hdom].
  unfold pos_invariant. rewrite Hcart. split_and!; try done. constructor.
Qed.

Lemma pos_step_keeps user settings page db page' db' :
  pos_step like user settings (page, db) (page', db') →
  pos_invariant page db →
  pos_invariant page' db' ∧ users db' = users db.
Proof.
  intros Hstep (Hlen & Hdom & Hnd & Hlines).
  inversion Hstep; subst; try (split; [|done]);
    unfold pos_invariant, minus_click, plus_click; simpl.
  - split_and!; try done; [by apply addToCart_NoDup|by apply addToCart_lines].
  - split_and!; try done; [by rewrite updateQuantity_ids|].
    apply updateQuantity_lines; [lia|done].
  - split_and!; try done; [by rewrite updateQuantity_ids|].
    apply updateQuantity_lines; [|done].
    rewrite list.Forall_forall in Hlines.
    match goal with H : _ ∈ POSPage.cart _ |- _ => destruct (Hlines _ H) as [? _] end. lia.
  - split_and!; try done; [by apply removeFromCart_NoDup|].
    apply list.Forall_forall. intros line [_ Hin]%list_elem_of_filter.
    rewrite list.Forall_forall in Hlines. by apply Hlines.
  - split_and!; try done; constructor.
  - done.
  - done.
  - done.
  - by split_and!.
  - match goal with H : searchProducts_rows _ _ _ _ |- _ =>
      apply searchProducts_rows_loaded in H as [Hlen' Hdom'] end.
    match goal with H : createSale ?now ?payload db = _ |- _ =>
      pose proof (createSale_frame now payload db) as (Hu & _ & _); rewrite H in Hu end.
    split; [|done]. split_and!; try done; constructor.
  - match goal with H : createSale ?now ?payload db = _ |- _ =>
      pose proof (createSale_frame now payload db) as (Hu & _ & Hd); rewrite H in Hu, Hd end.
    simpl in *. split; [|done]. split_and!; try done. by rewrite Hd.
Qed.

Lemma pos_run_keeps user settings (start stop : POSPage.t * Database) :
  pos_invariant start.1 start.2 →
  rtc (pos_step like user settings) start stop →
  pos_invariant stop.1 stop.2 ∧ users stop.2 = users start.2.
Proof.
  intros Hinv Hrun.
  revert stop Hrun.
  apply (rtc_ind_r (R := pos_step like user settings)
           (λ stop, pos_invariant stop.1 stop.2 ∧ users stop.2 = users start.2) start);
    [done|].
  intros [page1 db1] [page2 db2] _ Hstep [Hinv1 Hu1].
  destruct (pos_step_keeps _ _ _ _ _ _ Hstep Hinv1) as [Hinv2 Hu2].
  split; [done|]. simpl in *. congruence.
Qed.

(** X14: as long as the POS page is up, from its mount through any
    clicks, inputs and checkouts, saved or failed: it holds at most 25
    products, each a product of the database; the lines of the cart have
    distinct product ids, each a quantity of at least 1 and the name and
    price of a loaded product; and the users table is as it was. *)
Theorem pos_page_invariant user settings db0 page0 page db :
  pos_mounted like db0 page0 →
  rtc (pos_step like user settings) (page0, db0) (page, db) →
  (length (POSPage.products page) ≤ 25)%nat
  ∧ Forall (λ product, product.1 ∈ dom (products db)) (POSPage.products page)
  ∧ NoDup (SaleItemPayload.id <$> POSPage.cart page)
  ∧ Forall (λ item, 1 ≤ SaleItemPayload.quantity item
                    ∧ ∃ product, product ∈ POSPage.products page
                                 ∧ product.1 = SaleItemPayload.id item
                                 ∧ Product.name product.2 = SaleItemPayload.name item
                                 ∧ Product.price product.2 = SaleItemPayload.price item)
           (POSPage.cart page)
  ∧ users db = users db0.
Proof.
  intros Hmount Hrun.
  destruct (pos_run_keeps user settings (page0, db0) (page, db))
    as [(H1 & H2 & H3 & H4) H5]; [by apply pos_mounted_invariant|done|].
  by split_and!.
Qed.
Lemma checkout_payload_Some user settings page payload :
  checkout_payload user settings page = Some payload →
  ∃ u, user = Some u
       ∧ POSPage.cart page ≠ []
       ∧ payload = SalePayload.mk (POSPage.cart page) (POSPage.discount page)
                     (settings_taxRate settings) (POSPage.paymentMethod page)
                     (POSPage.paidAmount page) None (AuthUser.id u).
Proof.
  unfold checkout_payload. destruct (POSPage.cart page) as [|item cart]; [done|].
  destruct user as [u|]; [|done]. intros [= <-]. by exists u.
Qed.

(** X15: with a user who is in the users table, a checkout of a
    non-empty cart on the POS page is always saved, at any moment of the
    life of the page: the call is made and returns, it cannot fail on a
    missing product or user, and the stock of the product of every line
    of the cart goes down by exactly the quantity of that line. *)
Theorem pos_checkout_is_saved u settings db0 page0 page db now :
  pos_mounted like db0 page0 →
  AuthUser.id u ∈ dom (users db0) →
  rtc (pos_step like (Some u) settings) (page0, db0) (page, db) →
  POSPage.cart page ≠ [] →
  ∃ payload r db',
    checkout_payload (Some u) settings page = Some payload
    ∧ createSale now payload db = (Return r, db')
    ∧ ∀ item, item ∈ POSPage.cart page →
        ∃ p, products db !! SaleItemPayload.id item = Some p
             ∧ products db' !! SaleItemPayload.id item
               = Some (decrement (SaleItemPayload.quantity item) p).
Proof.
  intros Hmount Hu Hrun Hcart.
  destruct (pos_run_keeps (Some u) settings (page0, db0) (page, db))
    as [(_ & Hdom & Hnd & Hlines) Husers]; [by apply pos_mounted_invariant|done|].
  simpl in *.
  set (payload := SalePayload.mk (POSPage.cart page) (POSPage.discount page)
                    (settings_taxRate settings) (POSPage.paymentMethod page)
                    (POSPage.paidAmount page) None (AuthUser.id u)).
  assert (checkout_payload (Some u) settings page = Some payload) as Hpay.
  { unfold checkout_payload. by destruct (POSPage.cart page). }
  assert (header_ok payload db = true) as Hh.
  { unfold header_ok. simpl. rewrite Husers. by apply bool_decide_eq_true. }
  assert (∀ item, item ∈ POSPage.cart page →
                  SaleItemPayload.id item ∈ dom (products db)) as Hexists.
  { intros item Hin. rewrite list.Forall_forall in Hlines.
    destruct (Hlines item Hin) as (_ & product & Hp & <- & _).
    rewrite list.Forall_forall in Hdom. by apply Hdom. }
  assert (lines_ok (SalePayload.items payload) db = true) as Hl.
  { unfold lines_ok. apply forallb_forall. intros item Hin%list_elem_of_In.
    apply bool_decide_eq_true. by apply Hexists. }
  eexists payload, _, _. split; [done|]. split; [by apply createSale_ok|].
  intros item Hin. apply Hexists in Hin as Hp. apply elem_of_dom in Hp as [p Hp].
  exists p. split; [done|]. rewrite products_post_lines. simpl.
  rewrite Hp. simpl. by rewrite posted_NoDup.
Qed.

(** X16: the figures the page shows under the cart are the figures of
    the sale: whenever a checkout is sent and returns, the total, the tax
    and the change it returns are the total, the tax and the change that
    were on the screen. *)
Theorem shown_figures_are_posted user settings page db now payload r db' :
  checkout_payload user settings page = Some payload →
  createSale now payload db = (Return r, db') →
  SaleResult.total r = shown_total settings page
  ∧ SaleResult.taxValue r = shown_tax settings page
  ∧ SaleResult.changeAmount r = shown_changeAmount settings page
  ∧ SaleResult.discountValue r = POSPage.discount page.
Proof.
  intros (u & -> & _ & ->)%checkout_payload_Some H.
  apply createSale_Return_inv in H as (_ & _ & -> & _).
  unfold sale_result, taxable, shown_changeAmount, shown_total, shown_tax, shown_subtotal.
  simpl. by rewrite or_zero_id.
Qed.
End pos_page.

Lemma pos_page_invariant_witness :
  (length (POSPage.products clicked_page) ≤ 25)%nat
  ∧ Forall (λ product, product.1 ∈ dom (products seed_db)) (POSPage.products clicked_page)
  ∧ NoDup (SaleItemPayload.id <$> POSPage.cart clicked_page)
  ∧ Forall (λ item, 1 ≤ SaleItemPayload.quantity item
                    ∧ ∃ product, product ∈ POSPage.products clicked_page
                                 ∧ product.1 = SaleItemPayload.id item
                                 ∧ Product.name product.2 = SaleItemPayload.name item
                                 ∧ Product.price product.2 = SaleItemPayload.price item)
           (POSPage.cart clicked_page)
  ∧ users seed_db = users seed_db.
Proof.
  apply (pos_page_invariant (λ _ _, true) (Some cashier) None seed_db mounted_page).
  - split; [apply searchProducts_allowed|done].
  - eapply rtc_l; [|apply rtc_once].
    + apply (click_product _ _ _ mounted_page seed_db (1, sample_product "haircut" 35 10 20 5)).
      vm_compute. set_solver.
    + apply (click_product _ _ _ once_clicked_page seed_db
               (1, sample_product "haircut" 35 10 20 5)).
      vm_compute. set_solver.
Defined.

Lemma pos_checkout_is_saved_witness :
  ∃ payload r db',
    checkout_payload (Some cashier) None clicked_page = Some payload
    ∧ createSale 1000 payload seed_db = (Return r, db')
    ∧ ∀ item, item ∈ POSPage.cart clicked_page →
        ∃ p, products seed_db !! SaleItemPayload.id item = Some p
             ∧ products db' !! SaleItemPayload.id item
               = Some (decrement (SaleItemPayload.quantity item) p).
Proof.
  apply (pos_checkout_is_saved (λ _ _, true) cashier None seed_db mounted_page).
  - split; [apply searchProducts_allowed|done].
  - vm_compute. set_solver.
  - eapply rtc_l; [|apply rtc_once].
    + apply (click_product _ _ _ mounted_page seed_db (1, sample_product "haircut" 35 10 20 5)).
      vm_compute. set_solver.
    + apply (click_product _ _ _ once_clicked_page seed_db
               (1, sample_product "haircut" 35 10 20 5)).
      vm_compute. set_solver.
  - discriminate.
Defined.

Lemma shown_figures_are_posted_witness :
  SaleResult.total (sale_result (cart [haircut 2] 0 0) seed_db)
  = shown_total (Some (Settings.mk "ar" "SAR" (Q2Qc (15 # 100)) "salon" None "thermal"))
                (POSPage.mk [] [haircut 2] (Qc_of_Z 0) cash (Qc_of_Z 0)).
Proof.
  apply (shown_figures_are_posted (Some cashier)
           (Some (Settings.mk "ar" "SAR" (Q2Qc (15 # 100)) "salon" None "thermal"))
           (POSPage.mk [] [haircut 2] (Qc_of_Z 0) cash (Qc_of_Z 0)) seed_db 1000
           (cart [haircut 2] 0 0) _ (createSale 1000 (cart [haircut 2] 0 0) seed_db).2);
    vm_compute; reflexivity.
Defined.

(** ** Products, users and logging in *)

Section requests.
Context (hashSync : string → string → string).
Implicit Types (shop : Shop) (db : Database) (req : request).

Lemma createSale_products_lookup now payload db pid :
  ∃ q, products (createSale now payload db).2 !! pid = decrement q <$> products db !! pid.
Proof.
  rewrite createSale_database.
  assert (∃ q, products db !! pid = decrement q <$> products db !! pid) as Hid.
  { exists 0. destruct (products db !! pid) as [p|]; simpl; [|done]. by rewrite decrement_0. }
  destruct (header_ok payload db); [|done].
  destruct (lines_ok (SalePayload.items payload) db); [|done].
  eexists. by rewrite products_post_lines.
Qed.

Lemma foreign_keys_hold_set_products f db :
  dom (products db) ⊆ dom (f (products db)) →
  foreign_keys_hold db → foreign_keys_hold (set_products f db).
Proof.
  intros Hdom [Hs Hi]. split; [done|].
  eapply Forall_impl; [exact Hi|]. intros si [H1 H2]. split; [done|]. simpl. set_solver.
Qed.

Lemma foreign_keys_hold_with_users f db :
  dom (users db) ⊆ dom (f (users db)) →
  foreign_keys_hold db →
  foreign_keys_hold (mkDatabase (f (users db)) (customers db) (products db) (sales db)
                                (sale_items db) (seq_sales db) (seq_sale_items db)).
Proof.
  intros Hdom [Hs Hi]. split; [|done].
  eapply Forall_impl; [exact Hs|]. intros s [H1 H2]. split; [done|]. simpl. set_solver.
Qed.

Lemma not_barcode_taken barcode self rows :
  ¬ barcode_taken barcode self rows →
  ∀ id p b, rows !! id = Some p → barcode = Some b → Product.barcode p = Some b →
            Some id = self.
Proof.
  intros Hn id p b Hp -> Hb. destruct (decide (Some id = self)) as [|Hne]; [done|].
  exfalso. apply Hn. by exists id, p.
Qed.

Lemma barcodes_unique_insert id cols rows :
  barcodes_unique rows →
  (∀ id' p b, rows !! id' = Some p → Product.barcode cols = Some b →
              Product.barcode p = Some b → id' = id) →
  barcodes_unique (<[id := cols]> rows).
Proof.
  intros Hu Hn id1 id2 p1 p2 b H1 H2 Hb1 Hb2.
  apply lookup_insert_Some in H1 as [[<- <-]|[Hne1 H1]];
    apply lookup_insert_Some in H2 as [[<- <-]|[Hne2 H2]]; [done| | |by eauto].
  - symmetry. by eapply Hn.
  - by eapply Hn.
Qed.

Lemma barcodes_unique_delete id rows :
  barcodes_unique rows → barcodes_unique (delete id rows).
Proof.
  intros Hu id1 id2 p1 p2 b H1 H2. apply lookup_delete_Some in H1 as [_ H1].
  apply lookup_delete_Some in H2 as [_ H2]. by eapply Hu.
Qed.

Lemma not_username_taken username self rows :
  ¬ username_taken username self rows →
  ∀ id u, rows !! id = Some u → User.username u = username → Some id = self.
Proof.
  intros Hn id u Hu Hname. destruct (decide (Some id = self)) as [|Hne]; [done|].
  exfalso. apply Hn. by exists id, u.
Qed.

Lemma usernames_unique_insert id row rows :
  usernames_unique rows →
  (∀ id' u, rows !! id' = Some u → User.username u = User.username row → id' = id) →
  usernames_unique (<[id := row]> rows).
Proof.
  intros Hu Hn id1 id2 u1 u2 H1 H2 Hname.
  apply lookup_insert_Some in H1 as [[<- <-]|[Hne1 H1]];
    apply lookup_insert_Some in H2 as [[<- <-]|[Hne2 H2]]; [done| | |by eauto].
  - symmetry. by eapply Hn.
  - by eapply Hn.
Qed.

Lemma usernames_unique_delete id rows :
  usernames_unique rows → usernames_unique (delete id rows).
Proof.
  intros Hu id1 id2 u1 u2 H1 H2. apply lookup_delete_Some in H1 as [_ H1].
  apply lookup_delete_Some in H2 as [_ H2]. by eapply Hu.
Qed.

Lemma products_save_ok product shop : shop_ok shop → shop_ok (products_save product shop).2.
Proof.
  intros (Hfk & Hrow & Hbar & Hname & Hsp & Hsu). unfold products_save.
  destruct (truthy_id _) as [id|].
  - destruct (decide (is_Some _)) as [Hex|]; [|done].
    destruct (decide (barcode_taken _ _ _)) as [|Hn]; [done|].
    split_and!; simpl; [|done| |done| |done].
    + apply foreign_keys_hold_set_products; [|done]. rewrite dom_insert. set_solver.
    + apply barcodes_unique_insert; [done|]. intros id' p b Hp Hb Hb'.
      by injection (not_barcode_taken _ _ _ Hn id' p b Hp Hb Hb').
    + intros id'. rewrite dom_insert, elem_of_union, elem_of_singleton.
      intros [->|?]; [|by apply Hsp]. apply Hsp. by apply elem_of_dom.
  - destruct (decide (barcode_taken _ _ _)) as [|Hn]; [done|].
    split_and!; simpl; [|done| |done| |done].
    + apply foreign_keys_hold_set_products; [|done]. rewrite dom_insert. set_solver.
    + apply barcodes_unique_insert; [done|]. intros id' p b Hp Hb Hb'.
      by specialize (not_barcode_taken _ _ _ Hn id' p b Hp Hb Hb').
    + intros id'. rewrite dom_insert, elem_of_union, elem_of_singleton.
      intros [->|?%Hsp]; lia.
Qed.

Lemma products_delete_ok id shop : shop_ok shop → shop_ok (products_delete id shop).2.
Proof.
  intros (Hfk & Hrow & Hbar & Hname & Hsp & Hsu). unfold products_delete.
  destruct (decide _) as [|Hn]; [done|].
  split_and!; simpl; [|done| |done| |done].
  - destruct Hfk as [Hs Hi]. split; [done|].
    apply list.Forall_forall. intros si Hsi.
    destruct (proj1 (list.Forall_forall _ _) Hi si Hsi) as [H1 H2]. split; [done|].
    simpl. rewrite dom_delete. apply elem_of_difference. split; [done|].
    rewrite elem_of_singleton. intros Heq. apply Hn. split.
    + apply elem_of_dom. by rewrite <- Heq.
    + apply Exists_exists. by exists si.
  - by apply barcodes_unique_delete.
  - intros id'. rewrite dom_delete. intros [? _]%elem_of_difference. by apply Hsp.
Qed.

Lemma users_delete_ok id shop : shop_ok shop → shop_ok (users_delete id shop).2.
Proof.
  intros (Hfk & Hrow & Hbar & Hname & Hsp & Hsu). unfold users_delete.
  destruct (decide _) as [|Hn]; [done|].
  split_and!; simpl; [|done|done| |done|].
  - destruct Hfk as [Hs Hi]. split; [|done].
    apply list.Forall_forall. intros s Hs'.
    destruct (proj1 (list.Forall_forall _ _) Hs s Hs') as [H1 H2]. split; [done|].
    simpl. rewrite dom_delete. apply elem_of_difference. split; [done|].
    rewrite elem_of_singleton. intros Heq. apply Hn. split.
    + apply elem_of_dom. by rewrite <- Heq.
    + apply Exists_exists. by exists s.
  - by apply usernames_unique_delete.
  - intros id'. rewrite dom_delete. intros [? _]%elem_of_difference. by apply Hsu.
Qed.

Lemma users_save_ok salt user shop :
  shop_ok shop → shop_ok (users_save hashSync salt user shop).2.
Proof.
  intros (Hfk & Hrow & Hbar & Hname & Hsp & Hsu). unfold users_save.
  destruct (truthy_id _) as [id|].
  - destruct (users (tables shop) !! id) as [old|] eqn:Hold; [|done].
    destruct (decide (username_taken _ _ _)) as [|Hn]; [done|].
    split_and!; simpl; [|done|done| |done|].
    + apply (foreign_keys_hold_with_users (insert id _)); [|done].
      rewrite dom_insert. set_solver.
    + apply usernames_unique_insert; [done|]. intros id' u Hu Hu'.
      by injection (not_username_taken _ _ _ Hn id' u Hu Hu').
    + intros id'. rewrite dom_insert, elem_of_union, elem_of_singleton.
      intros [->|?]; [|by apply Hsu]. apply Hsu. by apply elem_of_dom.
  - destruct (decide (username_taken _ _ _)) as [|Hn]; [done|].
    split_and!; simpl; [|done|done| |done|].
    + apply (foreign_keys_hold_with_users (insert (seq_users shop + 1) _)); [|done].
      rewrite dom_insert. set_solver.
    + apply usernames_unique_insert; [done|]. intros id' u Hu Hu'.
      by specialize (not_username_taken _ _ _ Hn id' u Hu Hu').
    + intros id'. rewrite dom_insert, elem_of_union, elem_of_singleton.
      intros [->|?%Hsu]; lia.
Qed.

Lemma createSale_shop_ok now payload shop :
  shop_ok shop → shop_ok (with_tables (createSale now payload (tables shop)).2 shop).
Proof.
  intros (Hfk & Hrow & Hbar & Hname & Hsp & Hsu).
  destruct (createSale_step_integrity now payload _ Hfk Hrow) as [Hfk' Hrow'].
  destruct (createSale_frame now payload (tables shop)) as (Hu & _ & Hd).
  split_and!; simpl; [done|done| | | |].
  - intros id1 id2 p1 p2 b H1 H2 Hb1 Hb2.
    destruct (createSale_products_lookup now payload (tables shop) id1) as [q1 Hq1].
    destruct (createSale_products_lookup now payload (tables shop) id2) as [q2 Hq2].
    rewrite H1 in Hq1. rewrite H2 in Hq2.
    destruct (products (tables shop) !! id1) as [p1'|] eqn:H1'; [|done].
    destruct (products (tables shop) !! id2) as [p2'|] eqn:H2'; [|done].
    simpl in Hq1, Hq2. simplify_eq. by eapply Hbar.
  - by rewrite Hu.
  - intros id. rewrite Hd. apply Hsp.
  - intros id. rewrite Hu. apply Hsu.
Qed.

Lemma handle_ok req shop : shop_ok shop → shop_ok (handle hashSync req shop).
Proof.
  destruct req; simpl.
  - apply createSale_shop_ok.
  - apply products_save_ok.
  - apply products_delete_ok.
  - apply users_save_ok.
  - apply users_delete_ok.
Qed.

Lemma after_requests_ok reqs shop :
  shop_ok shop → shop_ok (after_requests hashSync reqs shop).
Proof.
  revert shop. induction reqs as [|req reqs IH]; intros shop Hok; [done|].
  simpl. apply IH. by apply handle_ok.
Qed.

(** X17: the constraints of the schema survive every request.  When
    the foreign keys of sales and sale_items hold, rowids are distinct and
    within their sequences, no two products share a barcode and no two
    users a username, the same is true after any sequence of pos/createSale,
    products/save, products/delete, users/save and users/delete requests,
    whichever of them fail. *)
Theorem requests_keep_shop_ok reqs shop :
  shop_ok shop → shop_ok (after_requests hashSync reqs shop).
Proof. apply after_requests_ok. Qed.

Lemma createSale_ledger_prefix now payload db :
  sales db `prefix_of` sales (createSale now payload db).2
  ∧ sale_items db `prefix_of` sale_items (createSale now payload db).2.
Proof.
  rewrite createSale_database. destruct (header_ok payload db); [|done].
  destruct (lines_ok (SalePayload.items payload) db).
  - rewrite sales_post_lines, sale_items_post_lines. simpl. split; by eexists.
  - simpl. split; [by eexists|done].
Qed.

Lemma handle_ledger req shop :
  sales (tables shop) `prefix_of` sales (tables (handle hashSync req shop))
  ∧ sale_items (tables shop) `prefix_of` sale_items (tables (handle hashSync req shop)).
Proof.
  destruct req as [now payload|product|id|salt user|id]; simpl.
  - apply createSale_ledger_prefix.
  - unfold products_save. by repeat case_match.
  - unfold products_delete. by repeat case_match.
  - unfold users_save. by repeat case_match.
  - unfold users_delete. by repeat case_match.
Qed.

Lemma after_requests_ledger reqs shop :
  sales (tables shop) `prefix_of` sales (tables (after_requests hashSync reqs shop))
  ∧ sale_items (tables shop)
      `prefix_of` sale_items (tables (after_requests hashSync reqs shop)).
Proof.
  revert shop. induction reqs as [|req reqs IH]; intros shop; [done|].
  simpl. destruct (handle_ledger req shop) as [H1 H2].
  destruct (IH (handle hashSync req shop)) as [H3 H4].
  split; by etrans.
Qed.

Lemma Exists_prefix {A} (P : A → Prop) (l k : list A) :
  l `prefix_of` k → Exists P l → Exists P k.
Proof. intros [k' ->] H. apply Exists_app. by left. Qed.

Lemma sold_product_stays id shop :
  shop_ok shop → product_sold id (tables shop) →
  products_delete id shop = (Failed (Sqlite SQLITE_CONSTRAINT_FOREIGNKEY), shop).
Proof.
  intros ([_ Hi] & _) Hsold. unfold products_delete.
  rewrite decide_True; [done|]. split; [|done].
  apply Exists_exists in Hsold as (si & Hsi & <-).
  apply elem_of_dom. by apply (proj1 (list.Forall_forall _ _) Hi si Hsi).
Qed.

Lemma sold_user_stays id shop :
  shop_ok shop → user_sold id (tables shop) →
  users_delete id shop = (Failed (Sqlite SQLITE_CONSTRAINT_FOREIGNKEY), shop).
Proof.
  intros ([Hs _] & _) Hsold. unfold users_delete.
  rewrite decide_True; [done|]. split; [|done].
  apply Exists_exists in Hsold as (s & Hs' & <-).
  apply elem_of_dom. by apply (proj1 (list.Forall_forall _ _) Hs s Hs').
Qed.

(** X18: a product that was sold can never be deleted.  Once a sale
    with a line for the product has been posted, products/delete of that
    product fails on the foreign key of sale_items and changes nothing,
    now and after any further requests. *)
Theorem sold_product_is_never_deleted now payload shop r db' item reqs :
  shop_ok shop →
  createSale now payload (tables shop) = (Return r, db') →
  item ∈ SalePayload.items payload →
  products_delete (SaleItemPayload.id item) (after_requests hashSync reqs (with_tables db' shop))
  = (Failed (Sqlite SQLITE_CONSTRAINT_FOREIGNKEY),
     after_requests hashSync reqs (with_tables db' shop)).
Proof.
  intros Hok Hsale Hitem.
  assert (shop_ok (with_tables db' shop)) as Hok'.
  { pose proof (createSale_shop_ok now payload shop Hok) as H. by rewrite Hsale in H. }
  apply sold_product_stays; [by apply after_requests_ok|].
  eapply Exists_prefix; [apply after_requests_ledger|]. simpl.
  apply createSale_Return_inv in Hsale as (_ & _ & _ & ->).
  unfold product_sold. rewrite sale_items_post_lines. apply Exists_app. right.
  assert (line_columns item ∈ item_columns
            <$> item_rows (seq_sales (tables shop) + 1)
                  (seq_sale_items (push_sale (sale_row now payload (tables shop)) (tables shop)))
                  (SalePayload.items payload)) as Hin.
  { rewrite item_columns_item_rows. by apply list_elem_of_fmap_2. }
  apply list_elem_of_fmap in Hin as (si & Heq & Hsi).
  apply Exists_exists. exists si. split; [done|].
  unfold line_columns, item_columns in Heq. by simplify_eq.
Qed.

(** X19: a user who recorded a sale can never be deleted, even when
    the sale failed.  When the header of a createSale call passes its
    foreign keys, the header is written whether or not the items are
    committed; from then on users/delete of the selling user fails on the
    foreign key of sales and changes nothing, after any further requests. *)
Theorem selling_user_is_never_deleted now payload shop reqs :
  shop_ok shop →
  header_ok payload (tables shop) = true →
  users_delete (SalePayload.userId payload)
    (after_requests hashSync (PosCreateSale now payload :: reqs) shop)
  = (Failed (Sqlite SQLITE_CONSTRAINT_FOREIGNKEY),
     after_requests hashSync (PosCreateSale now payload :: reqs) shop).
Proof.
  intros Hok Hh. apply sold_user_stays; [by apply after_requests_ok|].
  simpl. eapply Exists_prefix; [apply after_requests_ledger|]. simpl.
  unfold user_sold. rewrite sales_after_createSale, Hh.
  apply Exists_app. right. by apply Exists_cons_hd.
Qed.
End requests.

Section login.
Context (hashSync : string → string → string) (compareSync : string → string → bool).
Implicit Types (shop : Shop) (db : Database).

Lemma user_by_username_Some username db id u :
  user_by_username username db = Some (id, u) →
  users db !! id = Some u ∧ User.username u = username.
Proof.
  unfold user_by_username. intros H.
  destruct (list_find _ _) as [[i row]|] eqn:Hfind; [|done].
  simpl in H. injection H as ->.
  apply list_find_Some in Hfind as (Hi & Hname & _).
  split; [|done]. apply elem_of_map_to_list. by eapply list_elem_of_lookup_2.
Qed.

Lemma user_by_username_None username db :
  user_by_username username db = None ↔
  ∀ id u, users db !! id = Some u → User.username u ≠ username.
Proof.
  unfold user_by_username. rewrite fmap_None, list_find_None, list.Forall_forall. split.
  - intros H id u Hu. by apply (H (id, u)), elem_of_map_to_list.
  - intros H [id u] Hu%elem_of_map_to_list. by apply (H id u).
Qed.

Lemma user_by_username_unique username db id u :
  users db !! id = Some u → User.username u = username →
  (∀ id' u', users db !! id' = Some u' → User.username u' = username → id' = id) →
  user_by_username username db = Some (id, u).
Proof.
  intros Hu Hname Huniq.
  destruct (user_by_username username db) as [[id' u']|] eqn:Hfind.
  - apply user_by_username_Some in Hfind as [Hu' Hname'].
    assert (id' = id) as -> by by eapply Huniq. by simplify_eq.
  - exfalso. by eapply (proj1 (user_by_username_None _ _) Hfind).
Qed.

(** X20: who gets in.  With usernames unique, auth/login answers with
    a user exactly when the users table has a row of that username whose
    stored hash bcrypt accepts for the password; the answer carries the
    id, username and role of that row, and never the hash. *)
Theorem login_success_iff username password db a :
  usernames_unique (users db) →
  login compareSync username password db = LoginSuccess a
  ↔ ∃ u, users db !! AuthUser.id a = Some u
         ∧ User.username u = username
         ∧ compareSync password (User.password u) = true
         ∧ a = AuthUser.mk (AuthUser.id a) username (User.role u).
Proof.
  intros Huniq. unfold login. split.
  - destruct (user_by_username username db) as [[id u]|] eqn:Hfind; [|done].
    apply user_by_username_Some in Hfind as [Hu Hname].
    destruct (compareSync password (User.password u)) eqn:Hcmp; [|done].
    intros [= <-]. exists u. simpl. by rewrite Hname.
  - intros (u & Hu & Hname & Hcmp & ->). simpl in Hu.
    rewrite (user_by_username_unique username db _ u Hu Hname).
    + by rewrite Hcmp, Hname.
    + intros id' u' Hu' Hname'. eapply Huniq; [done..|]. by rewrite Hname.
Qed.

(** X21: a saved user can log in.  When bcrypt accepts a password
    against its own hash, a users/save that replies with an id leaves
    a user who logs in under the saved username: with the password of
    the payload, or with the default password when a new user came without
    one.  Saving an id that names no row replies as well but stores
    nothing, which is why the row is asked to exist. *)
Theorem saved_user_can_log_in salt user shop id shop' password :
  (∀ pw s, compareSync pw (hashSync pw s) = true) →
  users_save hashSync salt user shop = (Replied id, shop') →
  (truthy_id (UserPayload.id user) = None
     ∧ password = default "password" (nonempty (UserPayload.password user)))
  ∨ (is_Some (users (tables shop) !! id)
     ∧ nonempty (UserPayload.password user) = Some password) →
  login compareSync (UserPayload.username user) password (tables shop')
  = LoginSuccess (AuthUser.mk id (UserPayload.username user) (UserPayload.role user)).
Proof.
  intros Hbcrypt Hsave Hcase. unfold users_save in Hsave.
  assert (∀ pw row,
    users (tables shop') !! id = Some row →
    User.username row = UserPayload.username user →
    User.role row = UserPayload.role user →
    User.password row = hashSync pw salt →
    (∀ id' u', users (tables shop') !! id' = Some u' →
               User.username u' = UserPayload.username user → id' = id) →
    login compareSync (UserPayload.username user) pw (tables shop')
    = LoginSuccess (AuthUser.mk id (UserPayload.username user) (UserPayload.role user)))
    as Hlogin.
  { intros pw row Hrow Hname Hrole Hpw Huniq. unfold login.
    rewrite (user_by_username_unique _ _ id row Hrow Hname Huniq).
    by rewrite Hpw, Hbcrypt, Hname, Hrole. }
  destruct (truthy_id (UserPayload.id user)) as [id'|] eqn:Hid.
  - destruct Hcase as [[? _]|[[old' Hold'] Hpw]]; [done|].
    destruct (users (tables shop) !! id') as [old|] eqn:Hold.
    + destruct (decide (username_taken _ _ _)) as [|Hn]; [done|].
      rewrite Hpw in Hsave. injection Hsave as <- <-.
      eapply Hlogin; simpl; [apply lookup_insert_eq|done..|].
      intros id2 u2 [[? ?]|[Hne Hu2]]%lookup_insert_Some Hname2; [done|].
      by injection (not_username_taken _ _ _ Hn id2 u2 Hu2 Hname2).
    + injection Hsave as <- <-. by rewrite Hold in Hold'.
  - destruct Hcase as [[_ ->]|[[old Hold] Hpw]].
    + destruct (decide (username_taken _ _ _)) as [|Hn]; [done|].
      injection Hsave as <- <-. simpl.
      eapply Hlogin; simpl; [apply lookup_insert_eq|done..|].
      intros id2 u2 [[? ?]|[Hne Hu2]]%lookup_insert_Some Hname2; [done|].
      by specialize (not_username_taken _ _ _ Hn id2 u2 Hu2 Hname2).
    + destruct (decide (username_taken _ _ _)) as [|Hn]; [done|].
      rewrite Hpw in Hsave. injection Hsave as <- <-.
      eapply Hlogin; simpl; [apply lookup_insert_eq|done..|].
      intros id2 u2 [[? ?]|[Hne Hu2]]%lookup_insert_Some Hname2; [done|].
      by specialize (not_username_taken _ _ _ Hn id2 u2 Hu2 Hname2).
Qed.

(** X22: editing a user without typing a password keeps the old one.
    When users/save updates an existing user and the payload has no
    password, the user logs in under the saved username with exactly the
    passwords bcrypt accepts against the hash stored before, and gets the
    saved role. *)
Theorem user_update_keeps_password salt user shop id old shop' password :
  users (tables shop) !! id = Some old →
  truthy_id (UserPayload.id user) = Some id →
  nonempty (UserPayload.password user) = None →
  users_save hashSync salt user shop = (Replied id, shop') →
  login compareSync (UserPayload.username user) password (tables shop')
  = if compareSync password (User.password old)
    then LoginSuccess (AuthUser.mk id (UserPayload.username user) (UserPayload.role user))
    else LoginFailure WrongPassword.
Proof.
  intros Hold Hid Hpw Hsave. unfold users_save in Hsave.
  rewrite Hid, Hold, Hpw in Hsave.
  destruct (decide (username_taken _ _ _)) as [|Hn]; [done|].
  injection Hsave as <-. unfold login.
  rewrite (user_by_username_unique _ _ id
             (User.mk (UserPayload.username user) (User.password old) (UserPayload.role user))).
  - done.
  - simpl. apply lookup_insert_eq.
  - done.
  - simpl. intros id2 u2 [[? ?]|[Hne Hu2]]%lookup_insert_Some Hname2; [done|].
    by injection (not_username_taken _ _ _ Hn id2 u2 Hu2 Hname2).
Qed.

(** X23: a deleted user is locked out.  With usernames unique, after
    users/delete replies for a user of the table, logging in under that
    username finds no user, whatever the password.  The handler asks
    neither for the role of the user nor whether another user is left:
    only the foreign key of sales can make it fail. *)
Theorem deleted_user_cannot_log_in id shop shop' u password :
  usernames_unique (users (tables shop)) →
  users (tables shop) !! id = Some u →
  users_delete id shop = (Replied tt, shop') →
  login compareSync (User.username u) password (tables shop') = LoginFailure UserNotFound.
Proof.
  intros Huniq Hu Hdel. unfold users_delete in Hdel.
  destruct (decide _); [done|]. injection Hdel as <-. unfold login.
  rewrite (proj2 (user_by_username_None _ _)); [done|].
  simpl. intros id' u' [Hne Hu']%lookup_delete_Some Hname.
  apply Hne. symmetry. by eapply Huniq.
Qed.

(** X24: what a products/save that replies has stored.  No row but
    the one of the id replied is touched.  Without an id in the payload
    the id replied is one no product had, and its row now holds the
    columns of the payload.  With an id the reply repeats it: the row holds
    the columns of the payload when it existed, and when it did not the
    handler still replies with the id though no row is there. *)
Theorem products_save_stores product shop id shop' :
  shop_ok shop →
  products_save product shop = (Replied id, shop') →
  (∀ id', id' ≠ id →
     products (tables shop') !! id' = products (tables shop) !! id')
  ∧ match truthy_id (ProductPayload.id product) with
    | None =>
        products (tables shop) !! id = None
        ∧ products (tables shop') !! id = Some (ProductPayload.columns product)
    | Some id0 =>
        id = id0
        ∧ products (tables shop') !! id
          = (λ _, ProductPayload.columns product) <$> products (tables shop) !! id
    end.
Proof.
  intros (_ & _ & _ & _ & Hsp & _) Hsave. unfold products_save in Hsave.
  destruct (truthy_id (ProductPayload.id product)) as [id0|].
  - destruct (decide (is_Some _)) as [[p Hp]|Hno].
    + destruct (decide (barcode_taken _ _ _)); [done|]. injection Hsave as <- <-.
      simpl. split; [|split; [done|]].
      * intros id' Hne. by apply lookup_insert_ne.
      * by rewrite lookup_insert_eq, Hp.
    + injection Hsave as <- <-. split; [done|split; [done|]].
      apply eq_None_not_Some in Hno. by rewrite Hno.
  - destruct (decide (barcode_taken _ _ _)); [done|]. injection Hsave as <- <-.
    simpl. split; [|split].
    + intros id' Hne. by apply lookup_insert_ne.
    + apply not_elem_of_dom. intros Hin%Hsp. lia.
    + apply lookup_insert_eq.
Qed.
End login.

Lemma seed_shop_ok : shop_ok seed_shop.
Proof.
  split_and!.
  - split; constructor.
  - split_and!; constructor.
  - intros id1 id2 p1 p2 b H1 _ Hb1 _.
    assert (map_Forall (λ _ p, Product.barcode p = None) (products (tables seed_shop))) as Hall
      by (apply (bool_decide_unpack (map_Forall (λ _ p, Product.barcode p = None)
                                               (products (tables seed_shop))));
          vm_compute; exact I).
    by rewrite (Hall id1 p1 H1) in Hb1.
  - intros id1 id2 u1 u2 H1 H2 _.
    change (users (tables seed_shop)) with ({[ 1 := User.mk "admin" "hash" "admin" ]} : gmap Z User.t)
      in H1, H2.
    apply lookup_singleton_Some in H1 as [<- _].
    by apply lookup_singleton_Some in H2 as [<- _].
  - apply (bool_decide_unpack (set_Forall (λ id, id ≤ 3) (dom (products seed_db)))).
    vm_compute. exact I.
  - apply (bool_decide_unpack (set_Forall (λ id, id ≤ 1) (dom (users seed_db)))).
    vm_compute. exact I.
Qed.

Lemma requests_keep_shop_ok_witness :
  shop_ok (after_requests plain_hashSync
             [ProductsDelete 2; UsersSave "salt" sam; ProductsSave pomade;
              PosCreateSale 1000 (cart [haircut 1; ghost 1] 0 50); UsersDelete 1]
             seed_shop).
Proof.
  apply (requests_keep_shop_ok plain_hashSync
           [ProductsDelete 2; UsersSave "salt" sam; ProductsSave pomade;
            PosCreateSale 1000 (cart [haircut 1; ghost 1] 0 50); UsersDelete 1]
           seed_shop).
  apply seed_shop_ok.
Defined.

Lemma sold_product_is_never_deleted_witness :
  products_delete 1
    (after_requests plain_hashSync [ProductsDelete 1; ProductsSave pomade]
       (with_tables (createSale 1000 (cart [haircut 1] 0 50) seed_db).2 seed_shop))
  = (Failed (Sqlite SQLITE_CONSTRAINT_FOREIGNKEY),
     after_requests plain_hashSync [ProductsDelete 1; ProductsSave pomade]
       (with_tables (createSale 1000 (cart [haircut 1] 0 50) seed_db).2 seed_shop)).
Proof.
  apply (sold_product_is_never_deleted plain_hashSync 1000 (cart [haircut 1] 0 50) seed_shop
           (sale_result (cart [haircut 1] 0 50) seed_db) _ (haircut 1)).
  - apply seed_shop_ok.
  - change (tables seed_shop) with seed_db.
    by rewrite createSale_ok by (vm_compute; reflexivity).
  - simpl. set_solver.
Defined.

Lemma selling_user_is_never_deleted_witness :
  users_delete 1
    (after_requests plain_hashSync [PosCreateSale 1000 (cart [haircut 1; ghost 1] 0 100)]
       seed_shop)
  = (Failed (Sqlite SQLITE_CONSTRAINT_FOREIGNKEY),
     after_requests plain_hashSync [PosCreateSale 1000 (cart [haircut 1; ghost 1] 0 100)]
       seed_shop).
Proof.
  apply (selling_user_is_never_deleted plain_hashSync 1000
           (cart [haircut 1; ghost 1] 0 100) seed_shop []).
  - apply seed_shop_ok.
  - vm_compute. reflexivity.
Defined.

Lemma login_success_iff_witness :
  login plain_compareSync "admin" "hash" seed_db = LoginSuccess (AuthUser.mk 1 "admin" "admin").
Proof.
  apply (login_success_iff plain_compareSync "admin" "hash" seed_db
           (AuthUser.mk 1 "admin" "admin")).
  - apply seed_shop_ok.
  - exists (User.mk "admin" "hash" "admin"). by split_and!.
Defined.

Lemma saved_user_can_log_in_witness :
  login plain_compareSync "sam" "password"
    (tables (users_save plain_hashSync "salt" sam seed_shop).2)
  = LoginSuccess (AuthUser.mk 2 "sam" "cashier").
Proof.
  apply (saved_user_can_log_in plain_hashSync plain_compareSync "salt" sam seed_shop 2
           (users_save plain_hashSync "salt" sam seed_shop).2 "password").
  - intros pw s. apply String.eqb_refl.
  - vm_compute. reflexivity.
  - left. by split.
Defined.

Lemma user_update_keeps_password_witness :
  login plain_compareSync "boss" "hash"
    (tables (users_save plain_hashSync "salt"
               (UserPayload.mk (Some 1) "boss" "admin" (Some "")) seed_shop).2)
  = LoginSuccess (AuthUser.mk 1 "boss" "admin").
Proof.
  apply (user_update_keeps_password plain_hashSync plain_compareSync "salt"
           (UserPayload.mk (Some 1) "boss" "admin" (Some "")) seed_shop 1
           (User.mk "admin" "hash" "admin")
           (users_save plain_hashSync "salt"
              (UserPayload.mk (Some 1) "boss" "admin" (Some "")) seed_shop).2 "hash").
  - done.
  - done.
  - done.
  - vm_compute. reflexivity.
Defined.

Lemma deleted_user_cannot_log_in_witness :
  login plain_compareSync "admin" "hash" (tables (users_delete 1 seed_shop).2)
  = LoginFailure UserNotFound.
Proof.
  apply (deleted_user_cannot_log_in plain_compareSync 1 seed_shop (users_delete 1 seed_shop).2
           (User.mk "admin" "hash" "admin") "hash").
  - apply seed_shop_ok.
  - done.
  - vm_compute. reflexivity.
Defined.

Lemma products_save_stores_witness :
  products (tables seed_shop) !! 4 = None
  ∧ products (tables (products_save pomade seed_shop).2) !! 4
    = Some (sample_product "pomade" 40 15 12 4).
Proof.
  apply (products_save_stores pomade seed_shop 4 (products_save pomade seed_shop).2).
  - apply seed_shop_ok.
  - vm_compute. reflexivity.
Defined.
